(** * bodhi/util.py: package introspection and repository metadata helpers

    A shallow embedding of the functions of [bodhi/util.py] that inspect
    packages ([rpm_fileheader], [excluded_arch], [sha1sum], [get_nvr]),
    regenerate repository metadata ([mkmetadatadir]), guard callables with a
    lock ([synchronized]) and look up the koji tag of a mash repository
    ([get_repo_tag]).

    Python 2 [str] values are [string]s, Python lists are [list]s, exceptions
    are an explicit result type, and the operating system (files, directories,
    descriptors, the log, the calls made to createrepo) is an explicit state
    threaded through the functions that touch it. *)

From Stdlib Require Import ZArith Ascii String List Bool Lia.
From Stdlib Require Import DecimalString.
From stdpp Require Import base decidable option list gmap strings fin_maps.

Import ListNotations.
Local Open Scope Z_scope.

(** ** Exceptions and results *)

(** The exception classes that the module raises or lets through. *)
Inductive exn : Type :=
  | OSError
  | IOError
  | TypeError
  | IndexError
  | AttributeError
  | RPMNotFound
  | OtherError (name : string).

#[global] Instance exn_eq_dec : EqDecision exn.
Proof. solve_decision. Defined.

(** A call either returns a value or raises. *)
Inductive outcome (A : Type) : Type :=
  | Return (a : A)
  | Raise (e : exn).
Arguments Return {A} a.
Arguments Raise {A} e.

#[global] Instance outcome_ret : MRet outcome := fun A a => Return a.

#[global] Instance outcome_bind : MBind outcome := fun A B k m =>
  match m with
  | Return a => k a
  | Raise e => Raise e
  end.


(** ** Python sequences *)

Module Py.

(** [l[i]], with Python's negative indices and [IndexError]. *)
Definition index {A : Type} (l : list A) (i : Z) : outcome A :=
  let n := Z.of_nat (length l) in
  let j := if i <? 0 then i + n else i in
  if (0 <=? j) && (j <? n) then
    match nth_error l (Z.to_nat j) with
    | Some a => Return a
    | None => Raise IndexError
    end
  else Raise IndexError.

(** [l[:stop]]: slices never raise, the bound is clipped. *)
Definition slice_to {A : Type} (l : list A) (stop : Z) : list A :=
  let n := Z.of_nat (length l) in
  let j := if stop <? 0 then Z.max 0 (stop + n) else Z.min stop n in
  firstn (Z.to_nat j) l.

(** [sep.join(l)]. *)
Fixpoint join (sep : string) (l : list string) : string :=
  match l with
  | [] => ""
  | [x] => x
  | x :: tl => x +:+ sep +:+ join sep tl
  end.

(** [s.split(sep)] for a one-character separator: every occurrence of the
    separator ends a field, so the result has one more field than the
    string has separators, and empty fields are kept. *)
Fixpoint split (sep : ascii) (s : string) : list string :=
  match s with
  | EmptyString => [""]
  | String c s' =>
      if Ascii.eqb c sep then "" :: split sep s'
      else match split sep s' with
           | [] => [String c ""]
           | f :: fs => String c f :: fs
           end
  end.

(** [s.count(c)] for a one-character [c]. *)
Fixpoint count (c : ascii) (s : string) : nat :=
  match s with
  | EmptyString => 0%nat
  | String d s' => ((if Ascii.eqb d c then 1 else 0) + count c s')%nat
  end.

(** [s.startswith(p)]. *)
Fixpoint startswith (p s : string) : bool :=
  match p, s with
  | EmptyString, _ => true
  | String _ _, EmptyString => false
  | String a p', String b s' => Ascii.eqb a b && startswith p' s'
  end.

(** The characters that [str.isspace] accepts: space, tab, line feed,
    vertical tab, form feed and carriage return. *)
Definition isspace (c : ascii) : bool :=
  let n := nat_of_ascii c in
  (n =? 32)%nat || ((9 <=? n)%nat && (n <=? 13)%nat).

(** [s.split()]: the maximal runs of non-space characters of [s]. [cur] is
    the run being read, reversed. *)
Fixpoint split_ws_aux (cur : list ascii) (s : string) : list string :=
  match s with
  | EmptyString =>
      match cur with
      | [] => []
      | _ => [string_of_list_ascii (rev cur)]
      end
  | String c s' =>
      if isspace c then
        match cur with
        | [] => split_ws_aux [] s'
        | _ => string_of_list_ascii (rev cur) :: split_ws_aux [] s'
        end
      else split_ws_aux (c :: cur) s'
  end.

Definition split_ws (s : string) : list string := split_ws_aux [] s.

(** [s.strip()]. *)
Fixpoint lstrip (s : string) : string :=
  match s with
  | EmptyString => ""
  | String c s' => if isspace c then lstrip s' else s
  end.

Definition rstrip (s : string) : string :=
  string_of_list_ascii (rev (list_ascii_of_string
    (lstrip (string_of_list_ascii (rev (list_ascii_of_string s)))))).

Definition strip (s : string) : string := rstrip (lstrip s).

(** Values met where the code relies on Python's truth of objects: a list
    is true when it is not empty. *)
Inductive value : Type :=
  | VBool (b : bool)
  | VList (l : list string).

Definition truthy (v : value) : bool :=
  match v with
  | VBool b => b
  | VList l => negb (bool_decide (l = []))
  end.

(** [a and b] and [a or b] return one of their operands. *)
Definition and_ (a b : value) : value := if truthy a then b else a.
Definition or_ (a b : value) : value := if truthy a then a else b.

(** [x in l] on a list of strings. *)
Definition in_ (x : string) (l : list string) : bool := bool_decide (x ∈ l).


(** [s[n:]]. *)
Fixpoint slice_from (n : nat) (s : string) : string :=
  match n, s with
  | O, _ => s
  | S n', String _ s' => slice_from n' s'
  | S _, EmptyString => ""
  end.

(** [str(x)] where [x] is a string or [None]. *)
Definition str (x : option string) : string :=
  match x with
  | Some s => s
  | None => "None"
  end.

End Py.

(** ** State and exceptions together *)

(** A Python call runs in a state, which it may change before it returns or
    raises: what was done before an exception stays done. *)
Definition M (W A : Type) : Type := W -> outcome A * W.

Definition ret {W A : Type} (a : A) : M W A := fun w => (Return a, w).

Definition raise {W A : Type} (e : exn) : M W A := fun w => (Raise e, w).

Definition lift {W A : Type} (o : outcome A) : M W A := fun w => (o, w).

Definition bindM {W A B : Type} (m : M W A) (k : A -> M W B) : M W B :=
  fun w =>
    match m w with
    | (Return a, w') => k a w'
    | (Raise e, w') => (Raise e, w')
    end.

Notation "x <- m ;; k" := (bindM m (fun x => k))
  (at level 100, m at next level, right associativity).
Notation "m ;; k" := (bindM m (fun _ => k))
  (at level 100, right associativity).

(** [try: body except (classes): handler]. *)
Definition try_except {W A : Type}
    (body : M W A) (classes : exn -> bool) (handler : M W A) : M W A :=
  fun w =>
    match body w with
    | (Return a, w') => (Return a, w')
    | (Raise e, w') => if classes e then handler w' else (Raise e, w')
    end.

(** [try: body finally: final]. The [finally] block runs on every exit of
    [body]; an exception of its own replaces the pending result. *)
Definition try_finally {W A : Type} (body : M W A) (final : M W unit) : M W A :=
  fun w =>
    let (r, w') := body w in
    match final w' with
    | (Return _, w'') => (r, w'')
    | (Raise e, w'') => (Raise e, w'')
    end.

(** ** os.path *)

Module Path.

(** [p[:i], p[i:]] for [i = p.rfind('/') + 1]. *)
Fixpoint rsplit (p : string) : string * string :=
  match p with
  | EmptyString => ("", "")
  | String c p' =>
      let (h, t) := rsplit p' in
      if Ascii.eqb c "/" then (String c h, t)
      else if String.eqb h "" then ("", String c t)
      else (String c h, t)
  end.

(** [s.rstrip('/')]. *)
Fixpoint rstrip_slash (s : string) : string :=
  match s with
  | EmptyString => ""
  | String c s' =>
      let r := rstrip_slash s' in
      if Ascii.eqb c "/" && String.eqb r "" then "" else String c r
  end.

Fixpoint all_slashes (s : string) : bool :=
  match s with
  | EmptyString => true
  | String c s' => Ascii.eqb c "/" && all_slashes s'
  end.

Definition basename (p : string) : string := snd (rsplit p).

Definition dirname (p : string) : string :=
  let head := fst (rsplit p) in
  if negb (String.eqb head "") && negb (all_slashes head)
  then rstrip_slash head
  else head.

(** [join(a, b)]: an absolute [b] discards [a]. *)
Definition join (a b : string) : string :=
  if Py.startswith "/" b then b
  else if String.eqb a "" || Ascii.eqb (List.last (list_ascii_of_string a) " "%char) "/"
       then a +:+ b
       else a +:+ "/" +:+ b.

(** The node a path names: its non-empty segments, from the root. Dot
    segments, symbolic links and a working directory are not modelled. *)
Definition resolve (p : string) : list string :=
  List.filter (fun seg => negb (String.eqb seg "")) (Py.split "/" p).

(** The proper and improper ancestors of a node, root excluded, outermost
    first. *)
Fixpoint prefixes {A : Type} (l : list A) : list (list A) :=
  match l with
  | [] => []
  | x :: l' => [x] :: map (cons x) (prefixes l')
  end.

End Path.

(** ** The operating system *)

Inductive loglevel : Type := DEBUG | ERROR.

Record world : Type := World {
  (** regular files, by node, with their content *)
  files : gmap (list string) string;
  (** directories other than the root *)
  dirs : gset (list string);
  (** open file descriptors of the process and the node each one reads *)
  fds : gmap nat (list string);
  (** records handed to the module's logger, oldest first *)
  logged : list (loglevel * string);
  (** argument vectors passed to [genpkgmetadata.main], oldest first *)
  createrepo_calls : list (list string)
}.

Definition set_fds (f : gmap nat (list string)) (w : world) : world :=
  World (files w) (dirs w) f (logged w) (createrepo_calls w).

Definition set_dirs (d : gset (list string)) (w : world) : world :=
  World (files w) d (fds w) (logged w) (createrepo_calls w).

Definition add_log (r : loglevel * string) (w : world) : world :=
  World (files w) (dirs w) (fds w) (logged w ++ [r]) (createrepo_calls w).

Definition add_call (args : list string) (w : world) : world :=
  World (files w) (dirs w) (fds w) (logged w) (createrepo_calls w ++ [args]).

Definition log_debug (msg : string) : M world unit :=
  fun w => (Return tt, add_log (DEBUG, msg) w).

Definition log_error (msg : string) : M world unit :=
  fun w => (Return tt, add_log (ERROR, msg) w).

(** Opening a regular file for reading takes a descriptor that is not in
    use; a path that names no regular file fails with [err]. *)
Definition open_with (err : exn) (path : string) : M world nat :=
  fun w =>
    match files w !! Path.resolve path with
    | Some _ =>
        let fd := fresh (dom (fds w)) in
        (Return fd, set_fds (<[fd := Path.resolve path]> (fds w)) w)
    | None => (Raise err, w)
    end.

(** [os.open(path, 0)]. *)
Definition os_open (path : string) : M world nat := open_with OSError path.

(** [os.close(fd)]. *)
Definition os_close (fd : nat) : M world unit :=
  fun w =>
    match fds w !! fd with
    | Some _ => (Return tt, set_fds (delete fd (fds w)) w)
    | None => (Raise OSError, w)
    end.

(** What a descriptor reads. *)
Definition fd_content (w : world) (fd : nat) : option string :=
  match fds w !! fd with
  | Some node => files w !! node
  | None => None
  end.

(** The builtin [open(path)] / [file(path, 'r')], and the file object's
    [read], [readlines] and [close]. *)
Definition file_open (path : string) : M world nat := open_with IOError path.

Definition file_read (f : nat) : M world string :=
  fun w =>
    match fd_content w f with
    | Some data => (Return data, w)
    | None => (Raise (OtherError "ValueError"), w)
    end.

(** The lines of a text, each with its line feed. *)
Fixpoint lines_of (s : string) : list string :=
  match s with
  | EmptyString => []
  | String c s' =>
      if Ascii.eqb c "010" then String c "" :: lines_of s'
      else match lines_of s' with
           | [] => [String c ""]
           | l :: ls => String c l :: ls
           end
  end.

Definition file_readlines (f : nat) : M world (list string) :=
  data <- file_read f ;; ret (lines_of data).

Definition file_close (f : nat) : M world unit :=
  fun w => (Return tt, set_fds (delete f (fds w)) w).

(** [os.path.isfile] and [os.path.isdir]. *)
Definition isfile (path : string) : M world bool :=
  fun w => (Return (bool_decide (is_Some (files w !! Path.resolve path))), w).

Definition isdir (path : string) : M world bool :=
  fun w =>
    (Return (negb (String.eqb path "") &&
             (bool_decide (Path.resolve path = []) ||
              bool_decide (Path.resolve path ∈ dirs w))), w).

(** [os.makedirs(name)]: creates the leaf and every missing ancestor. It
    fails when the leaf exists already or when a regular file stands on the
    way; in both cases nothing has been created. *)
Definition os_makedirs (name : string) : M world unit :=
  fun w =>
    let node := Path.resolve name in
    if bool_decide (node = []) || bool_decide (node ∈ dirs w) then (Raise OSError, w)
    else if existsb (fun p => bool_decide (is_Some (files w !! p))) (Path.prefixes node)
    then (Raise OSError, w)
    else (Return tt, set_dirs (dirs w ∪ list_to_set (Path.prefixes node)) w).

(** ** The [sha] module of the standard library: SHA-1 *)

Module Sha.

Definition w32 (x : Z) : Z := x mod 2 ^ 32.

Definition rotl (n x : Z) : Z :=
  w32 (Z.lor (Z.shiftl x n) (Z.shiftr x (32 - n))).

Definition bytes_of (s : string) : list Z :=
  map (fun c => Z.of_nat (nat_of_ascii c)) (list_ascii_of_string s).

(** Big-endian bytes of [x], [n] of them. *)
Fixpoint be_bytes (n : nat) (x : Z) : list Z :=
  match n with
  | O => []
  | S n' => Z.shiftr x (8 * Z.of_nat n') mod 256 :: be_bytes n' x
  end.

Definition pad (msg : list Z) : list Z :=
  let l := Z.of_nat (length msg) in
  msg ++ [128] ++ repeat 0 (Z.to_nat ((55 - l) mod 64)) ++ be_bytes 8 (8 * l).

Fixpoint words (fuel : nat) (bs : list Z) : list Z :=
  match fuel, bs with
  | S fuel', a :: b :: c :: d :: tl =>
      (Z.shiftl a 24 + Z.shiftl b 16 + Z.shiftl c 8 + d) :: words fuel' tl
  | _, _ => []
  end.

Fixpoint blocks (fuel : nat) (ws : list Z) : list (list Z) :=
  match fuel, ws with
  | S fuel', _ :: _ => firstn 16 ws :: blocks fuel' (skipn 16 ws)
  | _, _ => []
  end.

(** The message schedule, newest word first. *)
Fixpoint schedule (n : nat) (rev_w : list Z) : list Z :=
  match n with
  | O => rev_w
  | S n' =>
      let x := Z.lxor (Z.lxor (nth 2 rev_w 0) (nth 7 rev_w 0))
                      (Z.lxor (nth 13 rev_w 0) (nth 15 rev_w 0)) in
      schedule n' (rotl 1 x :: rev_w)
  end.

Definition state : Type := Z * Z * Z * Z * Z.

Definition round (t : nat) (st : state) (wt : Z) : state :=
  let '(a, b, c, d, e) := st in
  let '(f, k) :=
    if (t <? 20)%nat then
      (Z.lor (Z.land b c) (Z.land (Z.lxor b (2 ^ 32 - 1)) d), 1518500249)
    else if (t <? 40)%nat then
      (Z.lxor (Z.lxor b c) d, 1859775393)
    else if (t <? 60)%nat then
      (Z.lor (Z.lor (Z.land b c) (Z.land b d)) (Z.land c d), 2400959708)
    else
      (Z.lxor (Z.lxor b c) d, 3395469782) in
  (w32 (rotl 5 a + f + e + k + wt), a, rotl 30 b, c, d).

Fixpoint rounds (t : nat) (st : state) (ws : list Z) : state :=
  match ws with
  | [] => st
  | wt :: ws' => rounds (S t) (round t st wt) ws'
  end.

Definition compress (st : state) (block : list Z) : state :=
  let '(a, b, c, d, e) := st in
  let '(a', b', c', d', e') := rounds 0 st (rev (schedule 64 (rev block))) in
  (w32 (a + a'), w32 (b + b'), w32 (c + c'), w32 (d + d'), w32 (e + e')).

Definition init : state :=
  (1732584193, 4023233417, 2562383102, 271733878, 3285377520).

Definition hex_digit (d : Z) : ascii :=
  ascii_of_nat (Z.to_nat (if d <? 10 then 48 + d else 87 + d)).

Fixpoint hex (n : nat) (x : Z) : string :=
  match n with
  | O => ""
  | S n' => String (hex_digit (Z.shiftr x (4 * Z.of_nat n') mod 16)) (hex n' x)
  end.

Definition new (s : string) : state :=
  let bs := pad (bytes_of s) in
  let ws := words (length bs) bs in
  fold_left compress (blocks (length ws) ws) init.

Definition hexdigest (st : state) : string :=
  let '(a, b, c, d, e) := st in
  hex 8 a +:+ hex 8 b +:+ hex 8 c +:+ hex 8 d +:+ hex 8 e.

End Sha.

(** ** The rpm bindings *)

(** The two tags of a package header that [excluded_arch] reads, as the rpm
    bindings give them: lists of architecture names. *)
Record rpmheader : Type := {
  RPMTAG_EXCLUDEARCH : list string;
  RPMTAG_EXCLUSIVEARCH : list string
}.

(** What [rpm.headerFromPackage] hands back: a pair of the header and the
    source-package flag, or [None]. *)
Inductive hdr_result : Type :=
  | HdrPair (h : rpmheader) (isSource : bool)
  | HdrNone.

(** What a call of the bindings may raise: the two classes that
    [rpm_fileheader] handles, or any class of their own, such as
    [rpm.error]. *)
Inductive rpm_exn : Type :=
  | RpmOSError
  | RpmTypeError
  | RpmOther (name : string).

Definition exn_of_rpm (e : rpm_exn) : exn :=
  match e with
  | RpmOSError => OSError
  | RpmTypeError => TypeError
  | RpmOther name => OtherError name
  end.

Definition outcome_of_rpm {A : Type} (r : A + rpm_exn) : outcome A :=
  match r with
  | inl a => Return a
  | inr e => Raise (exn_of_rpm e)
  end.

(** The [rpm] module is not part of this code base. Its two ways of reading
    a header are functions of the bytes behind the descriptor; each may
    raise. [has_opendb] tells which generation of the bindings is loaded. *)
Record rpm_module : Type := {
  has_opendb : bool;
  headerFromPackage : string -> hdr_result + rpm_exn;
  hdrFromFdno : string -> rpmheader + rpm_exn
}.

(** [t[0]] on the result of [headerFromPackage]: [None] has no items. *)
Definition item0 (t : hdr_result) : outcome rpmheader :=
  match t with
  | HdrPair h _ => Return h
  | HdrNone => Raise TypeError
  end.

(** A call of the bindings on an open descriptor. *)
Definition rpm_read {A : Type} (f : string -> A + rpm_exn) (fd : nat) : M world A :=
  fun w =>
    match fd_content w fd with
    | Some data => (outcome_of_rpm (f data), w)
    | None => (Raise (OtherError "rpm.error"), w)
    end.

(** ** The functions of [bodhi/util.py] *)

(** The exception classes named by the handler of [rpm_fileheader]. *)
Definition handled (e : exn) : bool :=
  bool_decide (e = OSError) || bool_decide (e = TypeError).

(** The body of the [try] statement of [rpm_fileheader]. *)
Definition read_header (rpm : rpm_module) (pkgpath : string) : M world (nat * rpmheader) :=
  fd <- os_open pkgpath ;;
  h <- (if has_opendb rpm
        then (t <- rpm_read (headerFromPackage rpm) fd ;; lift (item0 t))
        else rpm_read (hdrFromFdno rpm) fd) ;;
  ret (fd, h).

Definition rpm_fileheader (rpm : rpm_module) (pkgpath : string) : M world rpmheader :=
  log_debug ("Grabbing the rpm header of " +:+ pkgpath) ;;
  r <- try_except (read_header rpm pkgpath) handled (raise RPMNotFound) ;;
  os_close (fst r) ;;
  ret (snd r).

Definition excluded_arch (h : rpmheader) (arch : string) : Py.value :=
  let excluded := RPMTAG_EXCLUDEARCH h in
  let exclusive := RPMTAG_EXCLUSIVEARCH h in
  Py.or_ (Py.and_ (Py.VList excluded) (Py.VBool (Py.in_ arch excluded)))
         (Py.and_ (Py.VList exclusive) (Py.VBool (negb (Py.in_ arch exclusive)))).

(** The decision a caller takes from the object returned. *)
Definition is_excluded (h : rpmheader) (arch : string) : bool :=
  Py.truthy (excluded_arch h arch).

Definition is_eligible (h : rpmheader) (arch : string) : bool :=
  negb (is_excluded h arch).

Definition sha1sum (file : string) : M world string :=
  fd <- file_open file ;;
  data <- file_read fd ;;
  let hash := Sha.new data in
  file_close fd ;;
  ret (Sha.hexdigest hash).

Definition get_nvr (nvr : string) : outcome (list string) :=
  let x := Py.split "-" nvr in
  let name := Py.join "-" (Py.slice_to x (-2)) in
  version ← Py.index x (-2);
  release ← Py.index x (-1);
  mret [name; version; release].

(** [genpkgmetadata.main] belongs to createrepo: [indexer] says whether a
    run succeeds, given its arguments and the state it finds. *)
Definition genpkgmetadata_main
    (indexer : list string -> world -> outcome unit) (args : list string) : M world unit :=
  fun w => (indexer args w, add_call args w).

Definition mkmetadatadir
    (config : gmap string string) (indexer : list string -> world -> outcome unit)
    (dir : string) : M world unit :=
  log_debug ("mkmetadatadir(" +:+ dir +:+ ")") ;;
  present <- isdir dir ;;
  (if negb present then os_makedirs dir else ret tt) ;;
  let cache := config !! "createrepo_cache_dir" in
  genpkgmetadata_main indexer ["--cachedir"; Py.str cache; "-q"; dir].

(** [os.path.dirname] of a configuration value: [None] has no [rfind]. *)
Definition dirname_of (v : option string) : outcome string :=
  match v with
  | Some p => Return (Path.dirname p)
  | None => Raise AttributeError
  end.

Definition mashconfig_path (config : gmap string string) (repo : string) : outcome string :=
  d ← dirname_of (config !! "mash_conf");
  mret (Path.join d (Path.basename repo +:+ ".mash")).

Definition get_repo_tag (config : gmap string string) (repo : string) : M world (option string) :=
  mashconfig <- lift (mashconfig_path config repo) ;;
  found <- isfile mashconfig ;;
  if found then
    f <- file_open mashconfig ;;
    lines <- file_readlines f ;;
    file_close f ;;
    line <- lift (Py.index (List.filter (Py.startswith "tag =") lines) 0) ;;
    tag <- lift (Py.index (Py.split_ws line) (-1)) ;;
    ret (Some tag)
  else
    log_error ("Cannot find mash configuration for " +:+ repo +:+ ": " +:+ mashconfig) ;;
    ret None.

(** ** The synchronization decorator *)

Inductive lock_op : Type := Acquire | Release.

(** A lock: whether it is held, and the calls made on it, oldest first. *)
Record lock : Type := Lock {
  locked : bool;
  lock_ops : list lock_op
}.

(** [lock.acquire()] returns with the lock held; the wait for another holder
    is not part of the model. *)
Definition lock_acquire {St : Type} : M (lock * St) unit :=
  fun '(l, s) => (Return tt, (Lock true (lock_ops l ++ [Acquire]), s)).

(** [lock.release()]: releasing a lock that is not held is an error. *)
Definition lock_release {St : Type} : M (lock * St) unit :=
  fun '(l, s) =>
    if locked l then (Return tt, (Lock false (lock_ops l ++ [Release]), s))
    else (Raise (OtherError "thread.error"), (l, s)).

(** [synchronized(lock)(f)]: the lock is the one of the state. *)
Definition synchronized {St A R : Type} (f : A -> M (lock * St) R) : A -> M (lock * St) R :=
  fun args =>
    lock_acquire ;;
    try_finally (f args) lock_release.
(** ** Notions used to state the properties *)

(** What the loaded bindings make of the bytes of a package, subscript
    included: the header, or the exception that reaches the handler of
    [rpm_fileheader]. *)
Definition parse_header (rpm : rpm_module) (data : string) : outcome rpmheader :=
  if has_opendb rpm
  then t ← outcome_of_rpm (headerFromPackage rpm data); item0 t
  else outcome_of_rpm (hdrFromFdno rpm data).

(** The content of the regular file that a path names, if any. *)
Definition file_at (w : world) (path : string) : option string :=
  files w !! Path.resolve path.
(** Whether a path names a directory in a state. *)
Definition is_directory (w : world) (dir : string) : Prop :=
  fst (isdir dir w) = Return true.


(** The last of the words of a line that white space separates. *)
Definition last_token (line : string) : string :=
  List.last (Py.split_ws line) "".

(** Strings of white space only, and strings without any. *)
Fixpoint all_space (s : string) : bool :=
  match s with
  | EmptyString => true
  | String c s' => Py.isspace c && all_space s'
  end.

Fixpoint no_space (s : string) : bool :=
  match s with
  | EmptyString => true
  | String c s' => negb (Py.isspace c) && no_space s'
  end.

(** The value that follows [tag =] on a line, in the words of the
    specification: what is left of the line after these five characters,
    without the white space around it. *)
Definition value_after_tag (line : string) : string :=
  Py.strip (Py.slice_from 5 line).
(** A string read backwards. *)
Definition reverse_string (s : string) : string :=
  string_of_list_ascii (rev (list_ascii_of_string s)).

(** The word that [split()] emits for the run [cur] it has read, kept in
    reverse: none when the run is empty. *)
Definition flush (cur : list ascii) : list string :=
  match cur with
  | [] => []
  | _ => [string_of_list_ascii (rev cur)]
  end.
(** ** Other functions of [bodhi/util.py] *)

(** The line feed. *)
Definition nl : string := String "010" "".

(** [s * n]. *)
Fixpoint repeat_str (s : string) (n : nat) : string :=
  match n with
  | O => ""
  | S n' => s +:+ repeat_str s n'
  end.

(** [header]: a message as a heading, between two rules of eighty [=]. *)
Definition header (x : string) : string :=
  repeat_str "=" 80 +:+ nl +:+ "     " +:+ x +:+ nl +:+ repeat_str "=" 80 +:+ nl.

(** [str(n)] and ["%d" % n] for an integer. *)
Definition str_int (n : Z) : string := NilZero.string_of_int (Z.to_int n).

(** A naive [datetime] is a number of microseconds on the time line. The
    difference of two is a [timedelta], which Python keeps normalised: the
    seconds are within a day and the microseconds within a second, and only
    the days carry the sign. *)
Record timedelta : Type := {
  days : Z;
  seconds : Z;
  microseconds : Z
}.

Definition us_per_second : Z := 1000000.
Definition us_per_day : Z := 86400 * us_per_second.

Definition datetime_sub (a b : Z) : timedelta :=
  let us := a - b in
  {| days := us / us_per_day;
     seconds := (us mod us_per_day) / us_per_second;
     microseconds := us mod us_per_second |}.

(** [get_age] and [get_age_in_days]; [utcnow] is what [datetime.utcnow()]
    reads from the clock. *)
Definition get_age (utcnow date : Z) : string :=
  let age := datetime_sub utcnow date in
  if days age =? 0 then
    if seconds age <? 60 then str_int (seconds age) +:+ " seconds"
    else str_int (seconds age / 60) +:+ " minutes"
  else str_int (days age) +:+ " days".

(** A [datetime] is true; the date that is not is [None]. *)
Definition get_age_in_days (utcnow : Z) (date : option Z) : Z :=
  match date with
  | Some d => days (datetime_sub utcnow d)
  | None => 0
  end.

(** [d[key]] on a dictionary of strings. *)
Definition getitem (d : gmap string string) (key : string) : outcome string :=
  match d !! key with
  | Some v => Return v
  | None => Raise (OtherError "KeyError")
  end.

(** [get_release_names] and [get_release_tuples]; [releases] is the list of
    dictionaries of the [init] module. *)
Fixpoint get_release_names (releases : list (gmap string string)) : outcome (list string) :=
  match releases with
  | [] => Return []
  | release :: rest =>
      long_name ← getitem release "long_name";
      names ← get_release_names rest;
      mret (long_name :: names)
  end.

(** The loop of [get_release_tuples] on the list [names] built so far. *)
Fixpoint release_tuples_loop (names : list string) (releases : list (gmap string string))
    : outcome (list string) :=
  match releases with
  | [] => Return names
  | release :: rest =>
      name ← getitem release "name";
      long_name ← getitem release "long_name";
      release_tuples_loop ((names ++ [name]) ++ [long_name]) rest
  end.

Definition get_release_tuples (releases : list (gmap string string)) : outcome (list string) :=
  release_tuples_loop [] releases.

(** The items of a list at the odd positions, counted from zero. *)
Fixpoint odd_items {A : Type} (l : list A) : list A :=
  match l with
  | _ :: y :: l' => y :: odd_items l'
  | _ => []
  end.

(** Hexadecimal digits in lower case. *)
Definition is_hex_digit (c : ascii) : bool :=
  let n := nat_of_ascii c in
  ((48 <=? n)%nat && (n <=? 57)%nat) || ((97 <=? n)%nat && (n <=? 102)%nat).

Fixpoint all_hex (s : string) : bool :=
  match s with
  | EmptyString => true
  | String c s' => is_hex_digit c && all_hex s'
  end.
(** ** Encodings *)

(** What [fixEncoding] is given: [None], a byte string or a unicode string,
    the latter as a list of code points. *)
Inductive pytext : Type :=
  | PyNone
  | PyStr (bytes : string)
  | PyUnicode (chars : list Z).

(** [not value] is true of [None] and of the two empty strings. *)
Definition is_true (value : pytext) : bool :=
  match value with
  | PyNone => false
  | PyStr s => negb (String.eqb s "")
  | PyUnicode u => negb (bool_decide (u = []))
  end.

(** The codecs belong to the standard library: [str.decode(encoding)],
    which may raise, and [unicode.encode('utf8')]. *)
Record codecs : Type := {
  decode : string -> string -> outcome (list Z);
  encode_utf8 : list Z -> string
}.

Definition UnicodeDecodeError : exn := OtherError "UnicodeDecodeError".

Definition is_decode_error (e : exn) : bool := bool_decide (e = UnicodeDecodeError).

(** [value.decode(encoding).encode('utf8')]. *)
Definition recode (c : codecs) (encoding : string) (value : string) : outcome pytext :=
  u ← decode c encoding value;
  mret (PyStr (encode_utf8 c u)).

Definition fixEncoding (c : codecs) (value : pytext) (fallback : string) : outcome pytext :=
  if negb (is_true value) then Return value
  else
    match value with
    | PyUnicode u => Return (PyStr (encode_utf8 c u))
    | PyStr s =>
        match recode c "utf8" s with
        | Return r => Return r
        | Raise e => if is_decode_error e then recode c fallback s else Raise e
        end
    | PyNone => Return value
    end.

(** * Properties *)

(** ** Architecture eligibility *)

Example excluded_arch_exclusive_other :
  is_excluded {| RPMTAG_EXCLUDEARCH := []; RPMTAG_EXCLUSIVEARCH := ["x86_64"] |} "i686" = true.
Proof. reflexivity. Qed.

Example excluded_arch_excludearch :
  is_excluded {| RPMTAG_EXCLUDEARCH := ["s390"]; RPMTAG_EXCLUSIVEARCH := [] |} "s390" = true.
Proof. reflexivity. Qed.

(** With no tag set, what comes back is the empty ExcludeArch list itself,
    not [False]. *)
Example excluded_arch_no_tags_returns_list :
  excluded_arch {| RPMTAG_EXCLUDEARCH := []; RPMTAG_EXCLUSIVEARCH := [] |} "ppc" = Py.VList [].
Proof. reflexivity. Qed.

Section Eligibility.

Implicit Types (h : rpmheader) (a : string) (l : list string).

Lemma in_true a l : Py.in_ a l = true <-> a ∈ l.
Proof. unfold Py.in_. apply bool_decide_eq_true. Qed.

Lemma in_false a l : Py.in_ a l = false <-> a ∉ l.
Proof. unfold Py.in_. apply bool_decide_eq_false. Qed.

Lemma truthy_list l : Py.truthy (Py.VList l) = true <-> l <> [].
Proof. simpl. rewrite negb_true_iff. apply bool_decide_eq_false. Qed.

Lemma truthy_and_list l b :
  Py.truthy (Py.and_ (Py.VList l) (Py.VBool b)) = true <-> l <> [] /\ b = true.
Proof.
  unfold Py.and_. destruct (Py.truthy (Py.VList l)) eqn:Hl.
  - apply truthy_list in Hl. simpl. tauto.
  - rewrite Hl. apply not_true_iff_false in Hl. rewrite truthy_list in Hl.
    split; [discriminate | tauto].
Qed.

Lemma truthy_or u v :
  Py.truthy (Py.or_ u v) = true <-> Py.truthy u = true \/ Py.truthy v = true.
Proof.
  unfold Py.or_. destruct (Py.truthy u) eqn:Hu; [tauto|].
  split; [tauto | intros [?|?]; congruence].
Qed.

Lemma is_excluded_iff h a :
  is_excluded h a = true <->
  a ∈ RPMTAG_EXCLUDEARCH h \/
  (RPMTAG_EXCLUSIVEARCH h <> [] /\ a ∉ RPMTAG_EXCLUSIVEARCH h).
Proof.
  unfold is_excluded, excluded_arch.
  rewrite truthy_or, !truthy_and_list, negb_true_iff, in_true, in_false.
  split.
  - intros [[_ ?]|?]; [by left | by right].
  - intros [H|H]; [left; split; [|done] | by right].
    intros Heq. rewrite Heq in H. by apply not_elem_of_nil in H.
Qed.

Lemma is_eligible_iff h a :
  is_eligible h a = true <->
  (a ∉ RPMTAG_EXCLUDEARCH h) /\
  (RPMTAG_EXCLUSIVEARCH h = [] \/ a ∈ RPMTAG_EXCLUSIVEARCH h).
Proof.
  unfold is_eligible. rewrite negb_true_iff, <- not_true_iff_false, is_excluded_iff.
  destruct (decide (a ∈ RPMTAG_EXCLUSIVEARCH h));
    destruct (decide (RPMTAG_EXCLUSIVEARCH h = [])); tauto.
Qed.

End Eligibility.

(** C1. For every architecture [a] and every header, [excluded_arch] reports
    the package as excluded exactly when [a] is in ExcludeArch, or
    ExclusiveArch is not empty and [a] is not in it; otherwise the package is
    eligible, and a header with both tags empty is eligible everywhere. *)
Theorem excluded_arch_decision :
  forall (h : rpmheader) (a : string),
    (is_excluded h a = true <->
       a ∈ RPMTAG_EXCLUDEARCH h \/
       (RPMTAG_EXCLUSIVEARCH h <> [] /\ a ∉ RPMTAG_EXCLUSIVEARCH h)) /\
    (is_eligible h a = true <->
       ~ (a ∈ RPMTAG_EXCLUDEARCH h \/
          (RPMTAG_EXCLUSIVEARCH h <> [] /\ a ∉ RPMTAG_EXCLUSIVEARCH h))) /\
    is_eligible {| RPMTAG_EXCLUDEARCH := []; RPMTAG_EXCLUSIVEARCH := [] |} a = true.
Proof.
  intros h a. split; [apply is_excluded_iff|]. split; [|reflexivity].
  unfold is_eligible. rewrite negb_true_iff, <- not_true_iff_false.
  by rewrite is_excluded_iff.
Qed.

(** C4, as stated, fails: an architecture listed in both tags is a member of
    a non-empty ExclusiveArch and yet excluded. *)
Lemma exclusive_arch_overridden_by_excludearch :
  let h := {| RPMTAG_EXCLUDEARCH := ["x86_64"];
              RPMTAG_EXCLUSIVEARCH := ["x86_64"; "i386"] |} in
  RPMTAG_EXCLUSIVEARCH h <> [] /\
  ~ (is_eligible h "x86_64" = true <-> "x86_64" ∈ RPMTAG_EXCLUSIVEARCH h).
Proof.
  intros h. split; [discriminate|].
  intros [_ H]. assert (Hin : "x86_64" ∈ RPMTAG_EXCLUSIVEARCH h) by (simpl; set_solver).
  specialize (H Hin). vm_compute in H. discriminate.
Qed.

(** C4, amended. With a non-empty ExclusiveArch, a package is eligible for
    [a] exactly when [a] is in ExclusiveArch and not in ExcludeArch; so
    membership in ExclusiveArch alone decides when [a] is not in
    ExcludeArch. *)
Theorem exclusive_arch_eligibility :
  forall (h : rpmheader) (a : string),
    RPMTAG_EXCLUSIVEARCH h <> [] ->
    (is_eligible h a = true <->
       (a ∈ RPMTAG_EXCLUSIVEARCH h) /\ (a ∉ RPMTAG_EXCLUDEARCH h)) /\
    (a ∉ RPMTAG_EXCLUDEARCH h ->
       (is_eligible h a = true <-> a ∈ RPMTAG_EXCLUSIVEARCH h)).
Proof.
  intros h a Hne. rewrite is_eligible_iff. split; [tauto|]. tauto.
Qed.

Lemma exclusive_arch_eligibility_witness :
  let h := {| RPMTAG_EXCLUDEARCH := ["s390"]; RPMTAG_EXCLUSIVEARCH := ["x86_64"; "i386"] |} in
  (is_eligible h "i386" = true <->
     ("i386" ∈ RPMTAG_EXCLUSIVEARCH h) /\ ("i386" ∉ RPMTAG_EXCLUDEARCH h)) /\
  ("i386" ∉ RPMTAG_EXCLUDEARCH h ->
     (is_eligible h "i386" = true <-> "i386" ∈ RPMTAG_EXCLUSIVEARCH h)).
Proof.
  intros h. apply (exclusive_arch_eligibility h "i386"). simpl. discriminate.
Defined.

(** ** Strings and sequences *)

Section Sequences.

Implicit Types (s t : string) (c : ascii) (l pre : list string).

Lemma append_cons c s t : String c s +:+ t = String c (s +:+ t).
Proof. reflexivity. Qed.

Lemma append_nil_l s : "" +:+ s = s.
Proof. reflexivity. Qed.

Lemma append_nil_r s : s +:+ "" = s.
Proof. induction s as [|c s IH]; [done|]. by rewrite append_cons, IH. Qed.

Lemma append_assoc s t u : (s +:+ t) +:+ u = s +:+ (t +:+ u).
Proof. induction s as [|c s IH]; [done|]. by rewrite !append_cons, IH. Qed.

Lemma split_not_nil c s : Py.split c s <> [].
Proof.
  destruct s as [|d s]; simpl; [done|].
  destruct (Ascii.eqb d c); [done|]. by destruct (Py.split c s).
Qed.

(** A string with [n] separators has [n + 1] fields. *)
Lemma length_split c s : length (Py.split c s) = S (Py.count c s).
Proof.
  induction s as [|d s IH]; simpl; [done|].
  destruct (Ascii.eqb d c); simpl; [by rewrite IH|].
  destruct (Py.split c s) eqn:E; simpl in *; [done | exact IH].
Qed.

Lemma join_cons sep x l :
  l <> [] -> Py.join sep (x :: l) = x +:+ sep +:+ Py.join sep l.
Proof. by destruct l. Qed.

Lemma join_app sep l1 l2 :
  l1 <> [] -> l2 <> [] ->
  Py.join sep (l1 ++ l2) = Py.join sep l1 +:+ sep +:+ Py.join sep l2.
Proof.
  intros H1 H2. induction l1 as [|x l1 IH]; [done|].
  destruct l1 as [|y l1].
  - simpl app. by rewrite join_cons.
  - rewrite <- app_comm_cons, join_cons by done.
    rewrite IH by done. rewrite (join_cons sep x (y :: l1)) by done.
    by rewrite !append_assoc.
Qed.

(** Joining the fields of a split with the separator gives the string
    back. *)
Lemma join_split c s : Py.join (String c "") (Py.split c s) = s.
Proof.
  induction s as [|d s IH]; simpl; [done|].
  destruct (Ascii.eqb_spec d c) as [->|Hne].
  - rewrite join_cons by apply split_not_nil. by rewrite IH.
  - pose proof (split_not_nil c s) as Hnil.
    destruct (Py.split c s) as [|f fs]; [done|].
    destruct fs as [|g fs]; simpl in *; [by subst|].
    rewrite <- IH. reflexivity.
Qed.

(** Negative indices and the slice [[:-2]] on a list that ends in two known
    items. *)
Lemma index_last {A : Type} (xs : list A) (v r : A) :
  Py.index (xs ++ [v; r]) (-1) = Return r.
Proof.
  unfold Py.index. rewrite length_app. simpl length.
  replace (-1 <? 0) with true by done.
  replace (Z.to_nat (-1 + Z.of_nat (length xs + 2))) with (length xs + 1)%nat by lia.
  assert (H : (0 <=? -1 + Z.of_nat (length xs + 2)) &&
              (-1 + Z.of_nat (length xs + 2) <? Z.of_nat (length xs + 2)) = true).
  { apply andb_true_iff. split; [apply Z.leb_le | apply Z.ltb_lt]; lia. }
  rewrite H. clear H.
  rewrite nth_error_app2 by lia.
  by replace (length xs + 1 - length xs)%nat with 1%nat by lia.
Qed.

Lemma index_before_last {A : Type} (xs : list A) (v r : A) :
  Py.index (xs ++ [v; r]) (-2) = Return v.
Proof.
  unfold Py.index. rewrite length_app. simpl length.
  replace (-2 <? 0) with true by done.
  replace (Z.to_nat (-2 + Z.of_nat (length xs + 2))) with (length xs) by lia.
  assert (H : (0 <=? -2 + Z.of_nat (length xs + 2)) &&
              (-2 + Z.of_nat (length xs + 2) <? Z.of_nat (length xs + 2)) = true).
  { apply andb_true_iff. split; [apply Z.leb_le | apply Z.ltb_lt]; lia. }
  rewrite H. clear H.
  rewrite nth_error_app2 by lia.
  by rewrite Nat.sub_diag.
Qed.

Lemma slice_to_before_last {A : Type} (xs : list A) (v r : A) :
  Py.slice_to (xs ++ [v; r]) (-2) = xs.
Proof.
  unfold Py.slice_to. rewrite length_app. simpl length.
  replace (-2 <? 0) with true by done.
  replace (Z.to_nat (Z.max 0 (-2 + Z.of_nat (length xs + 2)))) with (length xs) by lia.
  rewrite firstn_app, Nat.sub_diag, firstn_all. simpl. apply app_nil_r.
Qed.

(** A list of two items or more ends in two items. *)
Lemma two_last {A : Type} (xs : list A) :
  (2 <= length xs)%nat -> exists ys v r, xs = ys ++ [v; r].
Proof.
  induction xs as [|x xs IH]; simpl; [lia|]. intros Hlen.
  destruct xs as [|y xs]; [simpl in Hlen; lia|].
  destruct xs as [|z xs].
  - by exists [], x, y.
  - destruct IH as (ys & v & r & ->); [simpl; lia|].
    by exists (x :: ys), v, r.
Qed.

End Sequences.

(** ** Name, version, release *)

Example get_nvr_foo_bar :
  get_nvr "foo-bar-1.2-3" = Return ["foo-bar"; "1.2"; "3"] /\
  Py.join "-" ["foo-bar"; "1.2"; "3"] = "foo-bar-1.2-3".
Proof. split; reflexivity. Qed.

(** With a single hyphen the name is empty, and joining the three parts does
    not give the input back. *)
Example get_nvr_one_hyphen :
  get_nvr "foo-1" = Return [""; "foo"; "1"] /\ Py.join "-" [""; "foo"; "1"] = "-foo-1".
Proof. split; reflexivity. Qed.

Example get_nvr_no_hyphen : get_nvr "foo" = Raise IndexError.
Proof. reflexivity. Qed.

(** On the fields of the input, [get_nvr] keeps the last two and joins the
    others. *)
Lemma get_nvr_of_fields (nvr : string) (pre : list string) (v r : string) :
  Py.split "-" nvr = pre ++ [v; r] ->
  get_nvr nvr = Return [Py.join "-" pre; v; r].
Proof.
  intros E. unfold get_nvr. rewrite E.
  by rewrite slice_to_before_last, index_before_last, index_last.
Qed.

(** C3. An identity string with at least two hyphens splits into fields
    [pre ++ [v; r]] with [pre] not empty; [get_nvr] returns the release [r]
    (last field), the version [v] (the field before it) and the name, the
    fields of [pre] joined with hyphens; joining name, version and release
    with hyphens gives the input back. *)
Theorem get_nvr_roundtrip :
  forall nvr : string,
    (2 <= Py.count "-" nvr)%nat ->
    exists (pre : list string) (v r : string),
      pre <> [] /\
      Py.split "-" nvr = pre ++ [v; r] /\
      get_nvr nvr = Return [Py.join "-" pre; v; r] /\
      Py.join "-" [Py.join "-" pre; v; r] = nvr.
Proof.
  intros nvr Hcount.
  pose proof (length_split "-" nvr) as Hlen.
  destruct (two_last (Py.split "-" nvr)) as (pre & v & r & E); [lia|].
  exists pre, v, r.
  assert (Hpre : pre <> []).
  { intros ->. rewrite E in Hlen. simpl in Hlen. lia. }
  split; [exact Hpre|]. split; [exact E|]. split; [by apply get_nvr_of_fields|].
  transitivity (Py.join "-" (Py.split "-" nvr)); [|apply join_split].
  rewrite E, (join_app "-" pre [v; r]) by done.
  reflexivity.
Qed.

Lemma get_nvr_roundtrip_witness :
  exists (pre : list string) (v r : string),
    pre <> [] /\
    Py.split "-" "foo-bar-1.2-3" = pre ++ [v; r] /\
    get_nvr "foo-bar-1.2-3" = Return [Py.join "-" pre; v; r] /\
    Py.join "-" [Py.join "-" pre; v; r] = "foo-bar-1.2-3".
Proof. apply (get_nvr_roundtrip "foo-bar-1.2-3"). simpl. lia. Defined.

(** ** The header reader *)

Section HeaderReader.

Context (rpm : rpm_module).
Implicit Types (w : world) (pkgpath data : string) (e : exn).

Lemma fresh_fd_unused w : fds w !! fresh (dom (fds w)) = None.
Proof. apply not_elem_of_dom, is_fresh. Qed.

Lemma set_fds_same w : set_fds (fds w) w = w.
Proof. by destruct w. Qed.

(** Closing the descriptor that was just opened restores the table. *)
Lemma close_fresh_fd w node :
  delete (fresh (dom (fds w))) (<[fresh (dom (fds w)) := node]> (fds w)) = fds w.
Proof. rewrite delete_insert_eq. apply delete_id, fresh_fd_unused. Qed.

Lemma handled_iff e : handled e = true <-> e = OSError \/ e = TypeError.
Proof.
  unfold handled. rewrite orb_true_iff, !bool_decide_eq_true. tauto.
Qed.

(** The bindings never raise the application's own exception. *)
Lemma outcome_of_rpm_not_found {A : Type} (r : A + rpm_exn) :
  outcome_of_rpm r <> Raise RPMNotFound.
Proof. by destruct r as [a|[]]. Qed.

Lemma parse_header_not_found data : parse_header rpm data <> Raise RPMNotFound.
Proof.
  unfold parse_header. destruct (has_opendb rpm).
  - destruct (headerFromPackage rpm data) as [[h b|]|[]]; done.
  - apply outcome_of_rpm_not_found.
Qed.

(** The [try] body: what it leaves behind. *)
Lemma read_header_missing w pkgpath :
  file_at w pkgpath = None ->
  read_header rpm pkgpath w = (Raise OSError, w).
Proof.
  unfold file_at, read_header, bindM, os_open, open_with. by intros ->.
Qed.

Lemma read_header_present w pkgpath data :
  file_at w pkgpath = Some data ->
  read_header rpm pkgpath w =
    (h ← parse_header rpm data; mret (fresh (dom (fds w)), h),
     set_fds (<[fresh (dom (fds w)) := Path.resolve pkgpath]> (fds w)) w).
Proof.
  unfold file_at, read_header, os_open, open_with, parse_header. intros Hfile.
  unfold bindM at 1. rewrite Hfile.
  assert (Hdata : forall A (f : string -> A + rpm_exn),
    rpm_read f (fresh (dom (fds w)))
      (set_fds (<[fresh (dom (fds w)) := Path.resolve pkgpath]> (fds w)) w) =
    (outcome_of_rpm (f data),
     set_fds (<[fresh (dom (fds w)) := Path.resolve pkgpath]> (fds w)) w)).
  { intros A f. unfold rpm_read, fd_content. simpl.
    by rewrite lookup_insert_eq, Hfile. }
  destruct (has_opendb rpm).
  - unfold bindM. rewrite Hdata.
    destruct (headerFromPackage rpm data) as [[h b|]|err]; reflexivity.
  - unfold bindM. rewrite Hdata.
    destruct (hdrFromFdno rpm data) as [h|err]; reflexivity.
Qed.

(** Every path through [rpm_fileheader]. *)
Lemma rpm_fileheader_missing w pkgpath :
  file_at w pkgpath = None ->
  rpm_fileheader rpm pkgpath w =
    (Raise RPMNotFound, add_log (DEBUG, "Grabbing the rpm header of " +:+ pkgpath) w).
Proof.
  intros Hfile. unfold rpm_fileheader, bindM, log_debug, try_except.
  by rewrite read_header_missing.
Qed.

Lemma rpm_fileheader_parsed w pkgpath data h :
  file_at w pkgpath = Some data ->
  parse_header rpm data = Return h ->
  rpm_fileheader rpm pkgpath w =
    (Return h, add_log (DEBUG, "Grabbing the rpm header of " +:+ pkgpath) w).
Proof.
  intros Hfile Hparse. unfold rpm_fileheader, bindM, log_debug, try_except.
  rewrite (read_header_present _ _ data) by done. rewrite Hparse. simpl.
  unfold os_close. simpl. rewrite lookup_insert_eq. unfold ret, set_fds. simpl.
  by rewrite close_fresh_fd.
Qed.

Lemma rpm_fileheader_unparsed w pkgpath data e :
  file_at w pkgpath = Some data ->
  parse_header rpm data = Raise e ->
  rpm_fileheader rpm pkgpath w =
    (Raise (if handled e then RPMNotFound else e),
     set_fds (<[fresh (dom (fds w)) := Path.resolve pkgpath]> (fds w))
       (add_log (DEBUG, "Grabbing the rpm header of " +:+ pkgpath) w)).
Proof.
  intros Hfile Hparse. unfold rpm_fileheader, bindM, log_debug, try_except.
  rewrite (read_header_present _ _ data) by done. rewrite Hparse. simpl.
  by destruct (handled e).
Qed.

End HeaderReader.


(** *** Descriptors *)

Section Descriptors.

Context (rpm : rpm_module).
Implicit Types (w : world) (pkgpath data : string) (e : exn).

(** A missing file takes no descriptor, and a header that reads well has
    its descriptor closed. *)
Lemma rpm_fileheader_missing_fds w pkgpath :
  file_at w pkgpath = None ->
  fds (snd (rpm_fileheader rpm pkgpath w)) = fds w.
Proof. intros H. by rewrite rpm_fileheader_missing. Qed.

Lemma rpm_fileheader_parsed_fds w pkgpath data h :
  file_at w pkgpath = Some data ->
  parse_header rpm data = Return h ->
  fds (snd (rpm_fileheader rpm pkgpath w)) = fds w.
Proof. intros H1 H2. by rewrite (rpm_fileheader_parsed rpm w pkgpath data h). Qed.

(** When the header read raises, whatever the class, the function is left
    through the handler or past it, and [os.close] is not reached: the
    descriptor taken by [os.open] stays in the table. *)
Lemma rpm_fileheader_unparsed_fds w pkgpath data e :
  file_at w pkgpath = Some data ->
  parse_header rpm data = Raise e ->
  let fd := fresh (dom (fds w)) in
  fds w !! fd = None /\
  fds (snd (rpm_fileheader rpm pkgpath w)) !! fd = Some (Path.resolve pkgpath).
Proof.
  intros H1 H2 fd. split; [apply fresh_fd_unused|].
  rewrite (rpm_fileheader_unparsed rpm w pkgpath data e) by done.
  simpl. apply lookup_insert_eq.
Qed.

End Descriptors.

(** C2 does not hold on the failure path of a file that opens but holds no
    package. Here [/srv/notes.txt] is a text file, the old bindings answer
    [None], the subscript raises [TypeError], and [rpm_fileheader] raises
    [RPMNotFound] with descriptor 0 still open, where no descriptor was
    open before the call. *)
Theorem rpm_fileheader_leaks_descriptor :
  let rpm := {| has_opendb := true;
                headerFromPackage := fun _ => inl HdrNone;
                hdrFromFdno := fun _ => inr RpmTypeError |} in
  let w := World {[ ["srv"; "notes.txt"] := "not a package" ]} {[ ["srv"] ]} ∅ [] [] in
  let r := rpm_fileheader rpm "/srv/notes.txt" w in
  fds w = ∅ /\
  fst r = Raise RPMNotFound /\
  fds (snd r) = {[ 0%nat := ["srv"; "notes.txt"] ]}.
Proof. vm_compute. split; [|split]; reflexivity. Qed.

(** The same with the transaction-set bindings, when [hdrFromFdno] raises
    [TypeError]. *)
Example rpm_fileheader_new_api_leaks :
  let rpm := {| has_opendb := false;
                headerFromPackage := fun _ => inl HdrNone;
                hdrFromFdno := fun _ => inr RpmTypeError |} in
  let w := World {[ ["srv"; "notes.txt"] := "not a package" ]} {[ ["srv"] ]} ∅ [] [] in
  let r := rpm_fileheader rpm "/srv/notes.txt" w in
  fst r = Raise RPMNotFound /\ map_to_list (fds (snd r)) = [(0%nat, ["srv"; "notes.txt"])].
Proof. vm_compute. split; reflexivity. Qed.

(** For a path that does not exist the call fails and no descriptor is
    left. *)
Example rpm_fileheader_missing_path :
  let rpm := {| has_opendb := true;
                headerFromPackage := fun _ => inl HdrNone;
                hdrFromFdno := fun _ => inr RpmTypeError |} in
  let w := World {[ ["srv"; "notes.txt"] := "not a package" ]} {[ ["srv"] ]} ∅ [] [] in
  let r := rpm_fileheader rpm "/srv/missing.rpm" w in
  fst r = Raise RPMNotFound /\ fds (snd r) = ∅.
Proof. vm_compute. split; reflexivity. Qed.

(** ** The content hasher *)

Example sha_empty : Sha.hexdigest (Sha.new "") = "da39a3ee5e6b4b0d3255bfef95601890afd80709".
Proof. vm_compute. reflexivity. Qed.

Example sha_abc : Sha.hexdigest (Sha.new "abc") = "a9993e364706816aba3e25717850c26c9cd0d89d".
Proof. vm_compute. reflexivity. Qed.

(** A message of more than one block. *)
Example sha_two_blocks :
  Sha.hexdigest (Sha.new "abcdbcdecdefdefgefghfghighijhijkijkljklmklmnlmnomnopnopq") =
  "84983e441c3bd26ebaae4aa1f95129e5e54670f1".
Proof. vm_compute. reflexivity. Qed.

Section Hasher.

Implicit Types (w : world) (file data : string).

Lemma sha1sum_missing w file :
  file_at w file = None -> sha1sum file w = (Raise IOError, w).
Proof.
  unfold file_at, sha1sum, bindM, file_open, open_with. by intros ->.
Qed.

(** The digest is that of the bytes, and the state is left as found: the
    descriptor of the file object is closed. *)
Lemma sha1sum_present w file data :
  file_at w file = Some data ->
  sha1sum file w = (Return (Sha.hexdigest (Sha.new data)), w).
Proof.
  unfold file_at, sha1sum, file_open, open_with. intros Hfile.
  unfold bindM at 1. rewrite Hfile.
  unfold bindM, file_read, fd_content. simpl.
  rewrite lookup_insert_eq, Hfile. unfold file_close, ret, set_fds. simpl.
  rewrite close_fresh_fd. by destruct w.
Qed.

End Hasher.

(** C9. [sha1sum] is deterministic: two files with the same bytes, in any
    two states, hash to the same hex digest, which is a function of the
    bytes alone; and two calls in a row on one file return twice the same
    string. *)
Theorem sha1sum_deterministic :
  forall (w1 w2 : world) (file1 file2 data : string),
    file_at w1 file1 = Some data ->
    file_at w2 file2 = Some data ->
    fst (sha1sum file1 w1) = Return (Sha.hexdigest (Sha.new data)) /\
    fst (sha1sum file2 w2) = fst (sha1sum file1 w1) /\
    fst ((d1 <- sha1sum file1 ;; d2 <- sha1sum file1 ;; ret (d1, d2)) w1) =
      Return (Sha.hexdigest (Sha.new data), Sha.hexdigest (Sha.new data)).
Proof.
  intros w1 w2 file1 file2 data H1 H2.
  unfold bindM. rewrite !(sha1sum_present w1 file1 data) by done.
  rewrite (sha1sum_present w2 file2 data) by done. done.
Qed.

Lemma sha1sum_deterministic_witness :
  let w1 := World {[ ["srv"; "a.rpm"] := "hello" ]} ∅ ∅ [] [] in
  let w2 := World {[ ["tmp"; "b.rpm"] := "hello"; ["tmp"; "c"] := "other" ]} ∅
                  {[ 0%nat := ["tmp"; "c"] ]} [] [] in
  fst (sha1sum "/srv/a.rpm" w1) = Return (Sha.hexdigest (Sha.new "hello")) /\
  fst (sha1sum "/tmp/b.rpm" w2) = fst (sha1sum "/srv/a.rpm" w1) /\
  fst ((d1 <- sha1sum "/srv/a.rpm" ;; d2 <- sha1sum "/srv/a.rpm" ;; ret (d1, d2)) w1) =
    Return (Sha.hexdigest (Sha.new "hello"), Sha.hexdigest (Sha.new "hello")).
Proof.
  intros w1 w2.
  apply (sha1sum_deterministic w1 w2 "/srv/a.rpm" "/tmp/b.rpm" "hello"); reflexivity.
Defined.

Example sha1sum_hello :
  fst (sha1sum "/srv/a.rpm" (World {[ ["srv"; "a.rpm"] := "hello" ]} ∅ ∅ [] [])) =
  Return "aaf4c61ddcc5e8a2dabede0f3b482cd9aea9434d".
Proof. vm_compute. reflexivity. Qed.

(** ** The metadata directory *)

Section MetadataDirectory.

Context (config : gmap string string) (indexer : list string -> world -> outcome unit).
Implicit Types (w : world) (dir : string).

Lemma resolve_empty : Path.resolve "" = [].
Proof. reflexivity. Qed.


Lemma is_directory_iff w dir :
  is_directory w dir <->
  dir <> "" /\ (Path.resolve dir = [] \/ Path.resolve dir ∈ dirs w).
Proof.
  unfold is_directory, isdir. simpl. split.
  - intros [= H]. apply andb_true_iff in H as [H1 H2].
    apply negb_true_iff, String.eqb_neq in H1.
    apply orb_true_iff in H2. rewrite !bool_decide_eq_true in H2. done.
  - intros [H1 H2]. f_equal. apply andb_true_iff. split.
    + by apply negb_true_iff, String.eqb_neq.
    + apply orb_true_iff. by rewrite !bool_decide_eq_true.
Qed.


Lemma isdir_false w dir : ~ is_directory w dir -> isdir dir w = (Return false, w).
Proof.
  unfold is_directory, isdir. simpl. intros H.
  by destruct (negb (dir =? "")%string &&
    (bool_decide (Path.resolve dir = []) || bool_decide (Path.resolve dir ∈ dirs w))).
Qed.

(** Logging does not touch the directories. *)
Lemma is_directory_add_log w dir r :
  is_directory (add_log r w) dir <-> is_directory w dir.
Proof. by rewrite !is_directory_iff. Qed.




End MetadataDirectory.



Example mkmetadatadir_makes_parents :
  let w := World {[ ["srv"; "README"] := "updates" ]} {[ ["srv"] ]} ∅ [] [] in
  let r := mkmetadatadir {[ "createrepo_cache_dir" := "/var/cache/createrepo" ]}
             (fun _ _ => Return tt) "/srv/updates/f7" w in
  fst r = Return tt /\
  elements (dirs (snd r)) ≡ₚ [["srv"]; ["srv"; "updates"]; ["srv"; "updates"; "f7"]] /\
  createrepo_calls (snd r) = [["--cachedir"; "/var/cache/createrepo"; "-q"; "/srv/updates/f7"]].
Proof. vm_compute. split; [done|]. split; [|done]. by rewrite Permutation_swap. Qed.

(** Without the configuration key the cache argument is the text [None]. *)
Example mkmetadatadir_no_cache_key :
  createrepo_calls (snd (mkmetadatadir ∅ (fun _ _ => Return tt) "/srv"
                           (World ∅ {[ ["srv"] ]} ∅ [] []))) =
  [["--cachedir"; "None"; "-q"; "/srv"]].
Proof. reflexivity. Qed.

(** A regular file on the way: [os.makedirs] raises and the indexer is not
    called. *)
Example mkmetadatadir_blocked :
  let w := World {[ ["srv"; "README"] := "updates" ]} {[ ["srv"] ]} ∅ [] [] in
  let r := mkmetadatadir ∅ (fun _ _ => Return tt) "/srv/README/f7" w in
  fst r = Raise OSError /\ createrepo_calls (snd r) = [].
Proof. vm_compute. done. Qed.

(** ** The synchronization decorator *)

Section Synchronized.

Context {St A R : Type}.
Implicit Types (f : A -> M (lock * St) R) (args : A) (l : lock) (s : St).

(** The wrapper on any callable, one that meddles with the lock included:
    the callable runs on the state that [acquire] leaves, and [release] runs
    on the state that the callable leaves, whether it returned or raised. *)
Lemma synchronized_unfold f args l s :
  synchronized f args (l, s) =
    let '(r, (l1, s1)) := f args (Lock true (lock_ops l ++ [Acquire]), s) in
    if locked l1
    then (r, (Lock false (lock_ops l1 ++ [Release]), s1))
    else (Raise (OtherError "thread.error"), (l1, s1)).
Proof.
  unfold synchronized, bindM, lock_acquire, try_finally, lock_release.
  destruct (f args _) as [r [l1 s1]]. by destruct (locked l1).
Qed.

End Synchronized.



(** ** The repo tag resolver *)

Section WhiteSpace.

Implicit Types (s t v ws : string) (c : ascii) (cur : list ascii).

Lemma list_ascii_app s t :
  list_ascii_of_string (s +:+ t) = list_ascii_of_string s ++ list_ascii_of_string t.
Proof. induction s as [|c s IH]; [done|]. rewrite append_cons. simpl. by rewrite IH. Qed.

Lemma string_of_list_app (a b : list ascii) :
  string_of_list_ascii (a ++ b) = string_of_list_ascii a +:+ string_of_list_ascii b.
Proof. induction a as [|c a IH]; [done|]. simpl. by rewrite IH. Qed.

Lemma all_space_forallb s : all_space s = forallb Py.isspace (list_ascii_of_string s).
Proof. induction s as [|c s IH]; [done|]. simpl. by rewrite IH. Qed.

Lemma no_space_forallb s :
  no_space s = forallb (fun c => negb (Py.isspace c)) (list_ascii_of_string s).
Proof. induction s as [|c s IH]; [done|]. simpl. by rewrite IH. Qed.

Lemma forallb_rev {A : Type} (p : A -> bool) (l : list A) :
  forallb p (rev l) = forallb p l.
Proof.
  induction l as [|x l IH]; [done|]. simpl.
  rewrite forallb_app, IH. simpl. by rewrite andb_true_r, andb_comm.
Qed.

Lemma all_space_reverse s : all_space (reverse_string s) = all_space s.
Proof.
  unfold reverse_string.
  by rewrite !all_space_forallb, list_ascii_of_string_of_list_ascii, forallb_rev.
Qed.

Lemma no_space_reverse s : no_space (reverse_string s) = no_space s.
Proof.
  unfold reverse_string.
  by rewrite !no_space_forallb, list_ascii_of_string_of_list_ascii, forallb_rev.
Qed.

Lemma reverse_app s t : reverse_string (s +:+ t) = reverse_string t +:+ reverse_string s.
Proof.
  unfold reverse_string. by rewrite list_ascii_app, rev_app_distr, string_of_list_app.
Qed.

Lemma reverse_involutive s : reverse_string (reverse_string s) = s.
Proof.
  unfold reverse_string.
  by rewrite list_ascii_of_string_of_list_ascii, rev_involutive,
    string_of_list_ascii_of_string.
Qed.

(** [lstrip] drops leading white space and nothing else. *)
Lemma lstrip_space ws s : all_space ws = true -> Py.lstrip (ws +:+ s) = Py.lstrip s.
Proof.
  induction ws as [|c ws IH]; [done|]. rewrite append_cons. simpl.
  intros [Hc Hws]%andb_true_iff. rewrite Hc. by apply IH.
Qed.

Lemma lstrip_word v : no_space v = true -> Py.lstrip v = v.
Proof.
  destruct v as [|c v]; [done|]. simpl. intros [Hc _]%andb_true_iff.
  apply negb_true_iff in Hc. by rewrite Hc.
Qed.

Lemma lstrip_word_app v s :
  no_space v = true -> v <> "" -> Py.lstrip (v +:+ s) = v +:+ s.
Proof.
  destruct v as [|c v]; [done|]. rewrite append_cons. simpl.
  intros [Hc _]%andb_true_iff _. apply negb_true_iff in Hc. by rewrite Hc.
Qed.

Lemma rstrip_word_space v ws :
  no_space v = true -> all_space ws = true -> Py.rstrip (v +:+ ws) = v.
Proof.
  intros Hv Hws. unfold Py.rstrip. fold (reverse_string (v +:+ ws)).
  rewrite reverse_app, lstrip_space by by rewrite all_space_reverse.
  rewrite lstrip_word by by rewrite no_space_reverse.
  apply reverse_involutive.
Qed.

(** The value between white space is what [strip] keeps. *)
Lemma strip_value ws1 v ws2 :
  all_space ws1 = true -> no_space v = true -> v <> "" -> all_space ws2 = true ->
  Py.strip (ws1 +:+ v +:+ ws2) = v.
Proof.
  intros H1 Hv Hne H2. unfold Py.strip.
  rewrite lstrip_space, lstrip_word_app by done. by apply rstrip_word_space.
Qed.

(** [split()] on white space, on a word and at the end of the text. *)
Lemma split_ws_aux_spaces cur ws :
  all_space ws = true -> Py.split_ws_aux cur ws = flush cur.
Proof.
  revert cur. induction ws as [|c ws IH]; intros cur; [done|].
  simpl. intros [Hc Hws]%andb_true_iff. rewrite Hc.
  destruct cur; rewrite (IH []) by done; reflexivity.
Qed.

Lemma split_ws_aux_space_app cur ws s :
  all_space ws = true -> ws <> "" ->
  Py.split_ws_aux cur (ws +:+ s) = flush cur ++ Py.split_ws_aux [] s.
Proof.
  revert cur. induction ws as [|c ws IH]; intros cur; [done|].
  rewrite append_cons. simpl. intros [Hc Hws]%andb_true_iff _. rewrite Hc.
  destruct ws as [|d ws].
  - rewrite append_nil_l. by destruct cur.
  - rewrite (IH []) by done. by destruct cur.
Qed.

Lemma split_ws_aux_word cur v s :
  no_space v = true ->
  Py.split_ws_aux cur (v +:+ s) = Py.split_ws_aux (rev (list_ascii_of_string v) ++ cur) s.
Proof.
  revert cur. induction v as [|c v IH]; intros cur; [done|].
  rewrite append_cons. simpl. intros [Hc Hv]%andb_true_iff. apply negb_true_iff in Hc.
  rewrite Hc, IH by done. by rewrite <- app_assoc.
Qed.

Lemma split_ws_aux_not_nil cur s : cur <> [] -> Py.split_ws_aux cur s <> [].
Proof.
  revert cur. induction s as [|c s IH]; intros cur Hcur; simpl.
  - by destruct cur.
  - destruct (Py.isspace c); [by destruct cur | by apply IH].
Qed.

Lemma startswith_app p s : Py.startswith p s = true <-> exists t, s = p +:+ t.
Proof.
  revert s. induction p as [|a p IH]; intros s; simpl.
  - split; [by exists s | done].
  - destruct s as [|b s]; [split; [done | by intros [t Ht]]|].
    rewrite andb_true_iff, IH. split.
    + intros [->%Ascii.eqb_eq [t ->]]. by exists t.
    + intros [t Ht]. rewrite append_cons in Ht. injection Ht as -> ->.
      split; [apply Ascii.eqb_refl | by exists t].
Qed.

(** A line that starts with [tag =] has words. *)
Lemma split_ws_tag_line line :
  Py.startswith "tag =" line = true -> Py.split_ws line <> [].
Proof.
  intros [t ->]%startswith_app. unfold Py.split_ws.
  change ("tag =" +:+ t) with (String "t" ("ag =" +:+ t)).
  change (Py.split_ws_aux [] (String "t" ("ag =" +:+ t)))
    with (Py.split_ws_aux ["t"%char] ("ag =" +:+ t)).
  by apply split_ws_aux_not_nil.
Qed.

(** On a line [tag = <value>] with a one-word value, the last word is the
    value, and so is what follows [tag =] once stripped. *)
Lemma last_token_of_tag_line ws1 v ws2 :
  all_space ws1 = true -> ws1 <> "" ->
  no_space v = true -> v <> "" ->
  all_space ws2 = true ->
  last_token ("tag =" +:+ ws1 +:+ v +:+ ws2) = v /\
  value_after_tag ("tag =" +:+ ws1 +:+ v +:+ ws2) = v.
Proof.
  intros H1 Hne1 Hv Hnev H2. split.
  - unfold last_token, Py.split_ws.
    change ("tag =" +:+ ws1 +:+ v +:+ ws2)
      with (String "t" (String "a" (String "g" (String " " (String "="
              (ws1 +:+ v +:+ ws2)))))).
    change (Py.split_ws_aux [] (String "t" (String "a" (String "g" (String " "
              (String "=" (ws1 +:+ v +:+ ws2)))))))
      with ("tag" :: Py.split_ws_aux ["="%char] (ws1 +:+ v +:+ ws2)).
    rewrite split_ws_aux_space_app, split_ws_aux_word by done.
    rewrite split_ws_aux_spaces by done. rewrite app_nil_r.
    assert (Hrev : rev (list_ascii_of_string v) <> []).
    { destruct v as [|c v]; [done|]. simpl. by destruct (rev (list_ascii_of_string v)). }
    unfold flush at 2. destruct (rev (list_ascii_of_string v)) as [|c cs] eqn:E; [done|].
    rewrite <- E, rev_involutive, string_of_list_ascii_of_string. reflexivity.
  - unfold value_after_tag.
    change (Py.slice_from 5 ("tag =" +:+ ws1 +:+ v +:+ ws2)) with (ws1 +:+ v +:+ ws2).
    by apply strip_value.
Qed.

End WhiteSpace.

Section RepoTag.

Context (config : gmap string string).
Implicit Types (w : world) (repo path data line : string) (lines : list string).

Lemma index_0_cons {A : Type} (x : A) (l : list A) : Py.index (x :: l) 0 = Return x.
Proof.
  unfold Py.index. simpl length.
  replace (0 <? 0) with false by done.
  assert (H : (0 <=? 0) && (0 <? Z.of_nat (S (length l))) = true).
  { apply andb_true_iff. split; [apply Z.leb_le | apply Z.ltb_lt]; lia. }
  by rewrite H.
Qed.

Lemma index_nil {A : Type} (i : Z) : Py.index (@nil A) i = Raise IndexError.
Proof.
  unfold Py.index. simpl length. change (Z.of_nat 0) with 0.
  destruct (i <? 0); destruct (0 <=? _) eqn:E1; destruct (_ <? 0) eqn:E2; try done;
    apply Z.leb_le in E1; apply Z.ltb_lt in E2; lia.
Qed.

Lemma index_last_one {A : Type} (xs : list A) (r : A) :
  Py.index (xs ++ [r]) (-1) = Return r.
Proof.
  destruct xs as [|x xs] using rev_ind; [done|].
  rewrite <- app_assoc. apply index_last.
Qed.

Lemma index_last_default {A : Type} (l : list A) (d : A) :
  l <> [] -> Py.index l (-1) = Return (List.last l d).
Proof.
  intros Hl. rewrite (app_removelast_last d Hl) at 1. apply index_last_one.
Qed.

(** The first line that matches is the head of the filtered list. *)
Lemma filter_first_match (p : string -> bool) (pre post : list string) line :
  Forall (fun x => p x = false) pre -> p line = true ->
  List.filter p (pre ++ line :: post) = line :: List.filter p post.
Proof.
  intros Hpre Hline. rewrite List.filter_app. simpl. rewrite Hline.
  induction Hpre as [|x pre Hx _ IH]; [done|]. simpl. by rewrite Hx.
Qed.

Lemma filter_no_match (p : string -> bool) lines :
  Forall (fun x => p x = false) lines -> List.filter p lines = [].
Proof. induction 1 as [|x l Hx _ IH]; [done|]. simpl. by rewrite Hx. Qed.

Lemma mashconfig_path_configured repo mash_conf :
  config !! "mash_conf" = Some mash_conf ->
  mashconfig_path config repo =
    Return (Path.join (Path.dirname mash_conf) (Path.basename repo +:+ ".mash")).
Proof. unfold mashconfig_path. by intros ->. Qed.

(** The two branches of [get_repo_tag]. *)
Lemma get_repo_tag_absent w repo path :
  mashconfig_path config repo = Return path ->
  file_at w path = None ->
  get_repo_tag config repo w =
    (Return None,
     add_log (ERROR, "Cannot find mash configuration for " +:+ repo +:+ ": " +:+ path) w).
Proof.
  unfold file_at. intros Hpath Hfile. unfold get_repo_tag, bindM, lift, isfile.
  rewrite Hpath, Hfile.
  rewrite bool_decide_eq_false_2 by by intros [? ?].
  reflexivity.
Qed.

(** A file object that is opened, read and closed leaves the state as it
    was. *)
Lemma file_open_present w path data :
  file_at w path = Some data ->
  file_open path w =
    (Return (fresh (dom (fds w))),
     set_fds (<[fresh (dom (fds w)) := Path.resolve path]> (fds w)) w).
Proof. unfold file_at, file_open, open_with. by intros ->. Qed.

Lemma file_read_opened w path data :
  file_at w path = Some data ->
  file_read (fresh (dom (fds w)))
    (set_fds (<[fresh (dom (fds w)) := Path.resolve path]> (fds w)) w) =
  (Return data, set_fds (<[fresh (dom (fds w)) := Path.resolve path]> (fds w)) w).
Proof.
  unfold file_at, file_read, fd_content. intros Hfile.
  cbn [fds files set_fds]. by rewrite lookup_insert_eq, Hfile.
Qed.

Lemma file_close_opened w (node : list string) :
  file_close (fresh (dom (fds w))) (set_fds (<[fresh (dom (fds w)) := node]> (fds w)) w) =
  (Return tt, w).
Proof.
  unfold file_close, set_fds. cbn [fds files dirs logged createrepo_calls].
  rewrite close_fresh_fd. by destruct w.
Qed.

Lemma bindM_return {W B C : Type} (m : M W B) (k : B -> M W C) (w w' : W) (b : B) :
  m w = (Return b, w') -> bindM m k w = k b w'.
Proof. unfold bindM. by intros ->. Qed.

Lemma bindM_raise {W B C : Type} (m : M W B) (k : B -> M W C) (w w' : W) (e : exn) :
  m w = (Raise e, w') -> bindM m k w = (Raise e, w').
Proof. unfold bindM. by intros ->. Qed.

Lemma get_repo_tag_present w repo path data :
  mashconfig_path config repo = Return path ->
  file_at w path = Some data ->
  get_repo_tag config repo w =
    (line ← Py.index (List.filter (Py.startswith "tag =") (lines_of data)) 0;
     tag ← Py.index (Py.split_ws line) (-1);
     mret (Some tag), w).
Proof.
  intros Hpath Hfile. unfold get_repo_tag.
  rewrite (bindM_return _ _ w w path) by (unfold lift; by rewrite Hpath).
  rewrite (bindM_return _ _ w w true).
  2:{ unfold isfile. unfold file_at in Hfile. by rewrite Hfile, bool_decide_eq_true_2. }
  rewrite (bindM_return _ _ _ _ _ (file_open_present w path data Hfile)).
  erewrite (bindM_return (file_readlines _)).
  2:{ unfold file_readlines.
      rewrite (bindM_return _ _ _ _ _ (file_read_opened w path data Hfile)).
      reflexivity. }
  rewrite (bindM_return _ _ _ _ _ (file_close_opened w (Path.resolve path))).
  destruct (Py.index (List.filter (Py.startswith "tag =") (lines_of data)) 0)
    as [line|e] eqn:E1.
  - rewrite (bindM_return _ _ w w line) by done.
    cbv [mbind outcome_bind mret outcome_ret].
    destruct (Py.index (Py.split_ws line) (-1)) as [tag|e] eqn:E2.
    + by rewrite (bindM_return _ _ w w tag).
    + by rewrite (bindM_raise _ _ w w e).
  - by rewrite (bindM_raise _ _ w w e).
Qed.

Lemma get_repo_tag_first_match w repo path data pre line post :
  mashconfig_path config repo = Return path ->
  file_at w path = Some data ->
  lines_of data = pre ++ line :: post ->
  Forall (fun x => Py.startswith "tag =" x = false) pre ->
  Py.startswith "tag =" line = true ->
  get_repo_tag config repo w = (Return (Some (last_token line)), w).
Proof.
  intros Hpath Hfile Hlines Hpre Hline.
  rewrite (get_repo_tag_present w repo path data) by done.
  rewrite Hlines, filter_first_match, index_0_cons by done. simpl.
  rewrite (index_last_default _ "") by by apply split_ws_tag_line.
  reflexivity.
Qed.

Lemma get_repo_tag_no_match w repo path data :
  mashconfig_path config repo = Return path ->
  file_at w path = Some data ->
  Forall (fun x => Py.startswith "tag =" x = false) (lines_of data) ->
  get_repo_tag config repo w = (Raise IndexError, w).
Proof.
  intros Hpath Hfile Hnone.
  rewrite (get_repo_tag_present w repo path data) by done.
  by rewrite filter_no_match, index_nil.
Qed.

End RepoTag.

Example get_repo_tag_f30 :
  fst (get_repo_tag {[ "mash_conf" := "/etc/bodhi/mash.conf" ]} "/mnt/koji/mash/f30-updates"
         (World {[ ["etc"; "bodhi"; "f30-updates.mash"] := "[f30-updates]
tag = f30-updates
" ]} ∅ ∅ [] [])) = Return (Some "f30-updates").
Proof. vm_compute. reflexivity. Qed.

(** Without [mash_conf] in the configuration the path cannot be built. *)
Example get_repo_tag_no_mash_conf :
  fst (get_repo_tag ∅ "f30-updates" (World ∅ ∅ ∅ [] [])) = Raise AttributeError.
Proof. reflexivity. Qed.

(** A value of two words: the last one is returned. *)
Example get_repo_tag_two_words :
  fst (get_repo_tag {[ "mash_conf" := "/etc/bodhi/mash.conf" ]} "f30-updates"
         (World {[ ["etc"; "bodhi"; "f30-updates.mash"] := "tag = dist f30
" ]} ∅ ∅ [] [])) = Return (Some "f30").
Proof. vm_compute. reflexivity. Qed.

(** C6, as stated, fails on a line where the value follows [tag =] at once:
    the line starts with the prefix, the value after it is [f30-updates],
    and the string returned is [=f30-updates]. *)
Lemma get_repo_tag_not_value_after_prefix :
  let config : gmap string string := {[ "mash_conf" := "/etc/bodhi/mash.conf" ]} in
  let line := "tag =f30-updates
" in
  let w := World {[ ["etc"; "bodhi"; "f30-updates.mash"] := line ]} ∅ ∅ [] [] in
  let r := fst (get_repo_tag config "/mnt/koji/mash/f30-updates" w) in
  file_at w "/etc/bodhi/f30-updates.mash" = Some line /\
  lines_of line = [line] /\
  Py.startswith "tag =" line = true /\
  value_after_tag line = "f30-updates" /\
  r = Return (Some "=f30-updates") /\
  r <> Return (Some (value_after_tag line)).
Proof. vm_compute. repeat split; done. Qed.

(** C6, amended. With [mash_conf] configured, the file looked up is
    [<dirname of mash_conf>/<basename of repo>.mash]. When it is absent,
    [get_repo_tag] logs an error and returns [None] without raising. When it
    is present and has a line that starts with [tag =], the function returns
    the last word of the first such line, whatever lines follow, and leaves
    the state as it was. That word is the value that follows [tag =]
    whenever this value is a single word set off from the [=] by white
    space. *)
Theorem get_repo_tag_resolves :
  forall (config : gmap string string) (repo mash_conf : string) (w : world),
    config !! "mash_conf" = Some mash_conf ->
    let path := Path.join (Path.dirname mash_conf) (Path.basename repo +:+ ".mash") in
    (file_at w path = None ->
       get_repo_tag config repo w =
         (Return None,
          add_log (ERROR, "Cannot find mash configuration for " +:+ repo +:+ ": " +:+ path) w)) /\
    (forall (data : string) (pre post : list string) (line : string),
       file_at w path = Some data ->
       lines_of data = pre ++ line :: post ->
       Forall (fun x => Py.startswith "tag =" x = false) pre ->
       Py.startswith "tag =" line = true ->
       get_repo_tag config repo w = (Return (Some (last_token line)), w)) /\
    (forall ws1 v ws2 : string,
       all_space ws1 = true -> ws1 <> "" ->
       no_space v = true -> v <> "" ->
       all_space ws2 = true ->
       last_token ("tag =" +:+ ws1 +:+ v +:+ ws2) = v /\
       value_after_tag ("tag =" +:+ ws1 +:+ v +:+ ws2) = v).
Proof.
  intros config repo mash_conf w Hconf path.
  pose proof (mashconfig_path_configured config repo mash_conf Hconf) as Hpath.
  split; [|split].
  - intros Hfile. by apply get_repo_tag_absent.
  - intros data pre post line Hfile Hlines Hpre Hline.
    by apply (get_repo_tag_first_match config w repo path data pre line post).
  - apply last_token_of_tag_line.
Qed.

Lemma get_repo_tag_resolves_witness :
  let config : gmap string string := {[ "mash_conf" := "/etc/bodhi/mash.conf" ]} in
  let w := World {[ ["etc"; "bodhi"; "f30-updates.mash"] := "# updates
tag = f30-updates
tag = f29-updates
" ]} ∅ ∅ [] [] in
  get_repo_tag config "/mnt/koji/mash/f30-updates" w = (Return (Some "f30-updates"), w) /\
  get_repo_tag config "/mnt/koji/mash/f31-updates" w =
    (Return None,
     add_log (ERROR, "Cannot find mash configuration for /mnt/koji/mash/f31-updates: /etc/bodhi/f31-updates.mash") w).
Proof.
  intros config w. split.
  - destruct (get_repo_tag_resolves config "/mnt/koji/mash/f30-updates"
                "/etc/bodhi/mash.conf" w eq_refl) as (_ & Hpresent & Hvalue).
    destruct (Hvalue " " "f30-updates" "
" eq_refl ltac:(discriminate) eq_refl ltac:(discriminate) eq_refl) as [Hlast _].
    rewrite <- Hlast.
    apply (Hpresent "# updates
tag = f30-updates
tag = f29-updates
" ["# updates
"] ["tag = f29-updates
"]); [reflexivity | reflexivity | | reflexivity].
    by constructor.
  - destruct (get_repo_tag_resolves config "/mnt/koji/mash/f31-updates"
                "/etc/bodhi/mash.conf" w eq_refl) as (Habsent & _ & _).
    apply Habsent. reflexivity.
Defined.

(** C10. When the configuration file exists and none of its lines starts
    with [tag =], [get_repo_tag] raises [IndexError], from the subscript on
    the empty list of matching lines; nothing is logged and nothing is
    returned. *)
Theorem get_repo_tag_without_tag_line :
  forall (config : gmap string string) (repo mash_conf data : string) (w : world),
    config !! "mash_conf" = Some mash_conf ->
    file_at w (Path.join (Path.dirname mash_conf) (Path.basename repo +:+ ".mash")) = Some data ->
    Forall (fun x => Py.startswith "tag =" x = false) (lines_of data) ->
    get_repo_tag config repo w = (Raise IndexError, w) /\
    logged (snd (get_repo_tag config repo w)) = logged w /\
    (forall v : option string, fst (get_repo_tag config repo w) <> Return v).
Proof.
  intros config repo mash_conf data w Hconf Hfile Hnone.
  pose proof (mashconfig_path_configured config repo mash_conf Hconf) as Hpath.
  rewrite (get_repo_tag_no_match config w repo _ data Hpath Hfile Hnone).
  split; [done|]. split; [done|]. intros v. simpl. discriminate.
Qed.

Lemma get_repo_tag_without_tag_line_witness :
  let config : gmap string string := {[ "mash_conf" := "/etc/bodhi/mash.conf" ]} in
  let w := World {[ ["etc"; "bodhi"; "f30-updates.mash"] := "[f30-updates]
rpm_path = %(arch)s/
" ]} ∅ ∅ [] [] in
  get_repo_tag config "/mnt/koji/mash/f30-updates" w = (Raise IndexError, w) /\
  logged (snd (get_repo_tag config "/mnt/koji/mash/f30-updates" w)) = logged w /\
  (forall v : option string,
     fst (get_repo_tag config "/mnt/koji/mash/f30-updates" w) <> Return v).
Proof.
  intros config w.
  apply (get_repo_tag_without_tag_line config "/mnt/koji/mash/f30-updates"
           "/etc/bodhi/mash.conf" "[f30-updates]
rpm_path = %(arch)s/
" w); [reflexivity | reflexivity |].
  apply (bool_decide_unpack _). vm_compute. exact I.
Defined.

(** * Further properties *)

(** ** What [excluded_arch] hands back *)

(** X1. [excluded_arch] does not always return a boolean: it returns the
    empty list exactly when ExclusiveArch is empty and the architecture is
    not in ExcludeArch, and a boolean, the decision itself, in every other
    case. *)
Theorem excluded_arch_result_type :
  forall (h : rpmheader) (a : string),
    (excluded_arch h a = Py.VList [] <->
       RPMTAG_EXCLUSIVEARCH h = [] /\ a ∉ RPMTAG_EXCLUDEARCH h) /\
    (excluded_arch h a = Py.VBool (is_excluded h a) <->
       ~ (RPMTAG_EXCLUSIVEARCH h = [] /\ a ∉ RPMTAG_EXCLUDEARCH h)).
Proof.
  intros [excl only] a. unfold is_excluded, excluded_arch. simpl.
  destruct excl as [|e excl]; destruct only as [|o only];
    unfold Py.and_, Py.or_; simpl.
  - split; [split; [intros _; split; [done | apply not_elem_of_nil] | done]|].
    split; [done|]. intros H. destruct H. split; [done | apply not_elem_of_nil].
  - split; [split; [done | by intros [? _]]|].
    split; [intros _ [? _]; done | done].
  - destruct (Py.in_ a (e :: excl)) eqn:Hin; simpl.
    + apply in_true in Hin.
      split; [split; [done | by intros [_ ?]]|].
      split; [by intros _ [_ ?] | done].
    + apply in_false in Hin.
      split; [split; [done | done]|].
      split; [done | intros H; by destruct H].
  - destruct (Py.in_ a (e :: excl)) eqn:Hin; simpl.
    + split; [split; [done | by intros [? _]]|].
      split; [by intros _ [? _] | done].
    + split; [split; [done | by intros [? _]]|].
      split; [by intros _ [? _] | done].
Qed.

(** ** More on [get_nvr] *)

Section NvrFields.

Implicit Types (s t v r name : string) (c : ascii).

Lemma count_app c s t : Py.count c (s +:+ t) = (Py.count c s + Py.count c t)%nat.
Proof.
  induction s as [|d s IH]; [done|]. rewrite append_cons. simpl. rewrite IH. lia.
Qed.

(** No field of a split holds the separator. *)
Lemma split_fields_clean c s : Forall (fun f => Py.count c f = 0%nat) (Py.split c s).
Proof.
  induction s as [|d s IH]; simpl; [by repeat constructor|].
  destruct (Ascii.eqb d c) eqn:E; [by constructor|].
  destruct (Py.split c s) as [|f fs]; [repeat constructor; simpl; by rewrite E|].
  inversion IH as [|? ? Hf Hfs]; subst. constructor; [|done].
  simpl. by rewrite E, Hf.
Qed.

Lemma split_no_sep c s : Py.count c s = 0%nat -> Py.split c s = [s].
Proof.
  induction s as [|d s IH]; simpl; [done|].
  destruct (Ascii.eqb d c); [done|]. intros H. by rewrite IH.
Qed.

(** The fields of [s], a separator and [t] are those of [s], then those of
    [t]. *)
Lemma split_app_sep c s t :
  Py.split c (s +:+ String c t) = Py.split c s ++ Py.split c t.
Proof.
  induction s as [|d s IH].
  - rewrite append_nil_l. simpl. by rewrite Ascii.eqb_refl.
  - rewrite append_cons. simpl. destruct (Ascii.eqb d c); [by rewrite IH|].
    rewrite IH. pose proof (split_not_nil c s) as Hs.
    by destruct (Py.split c s).
Qed.

Lemma get_nvr_one_field s x : Py.split "-" s = [x] -> get_nvr s = Raise IndexError.
Proof. intros E. unfold get_nvr. by rewrite E. Qed.

End NvrFields.

(** X2. [get_nvr] raises [IndexError] exactly on the strings that have no
    hyphen, the empty string among them; on every other string it returns
    a list of three strings. *)
Theorem get_nvr_raises_iff :
  forall nvr : string,
    (get_nvr nvr = Raise IndexError <-> Py.count "-" nvr = 0%nat) /\
    ((exists name version release, get_nvr nvr = Return [name; version; release]) <->
       (1 <= Py.count "-" nvr)%nat).
Proof.
  intros nvr. pose proof (length_split "-" nvr) as Hlen.
  destruct (Py.count "-" nvr) as [|n] eqn:Hcount.
  - destruct (Py.split "-" nvr) as [|x [|y l]] eqn:E; simpl in Hlen; try lia.
    rewrite (get_nvr_one_field nvr x E).
    split; [done|]. split; [by intros (? & ? & ? & ?) | lia].
  - destruct (two_last (Py.split "-" nvr)) as (pre & v & r & E); [lia|].
    rewrite (get_nvr_of_fields nvr pre v r E).
    split; [done|]. split; [lia | intros _; by eexists _, _, _].
Qed.

(** X3. The version and the release that [get_nvr] returns never hold a
    hyphen: all the hyphens but the last two stay in the name. *)
Theorem get_nvr_version_release_clean :
  forall nvr name version release : string,
    get_nvr nvr = Return [name; version; release] ->
    Py.count "-" version = 0%nat /\ Py.count "-" release = 0%nat /\
    (Py.count "-" nvr = Py.count "-" name + 2 \/ (Py.count "-" nvr = 1 /\ name = ""))%nat.
Proof.
  intros nvr name version release Hres.
  pose proof (length_split "-" nvr) as Hlen.
  pose proof (split_fields_clean "-" nvr) as Hclean.
  destruct (Py.count "-" nvr) as [|n] eqn:Hcount.
  - destruct (Py.split "-" nvr) as [|x [|y l]] eqn:E; simpl in Hlen; try lia.
    by rewrite (get_nvr_one_field nvr x E) in Hres.
  - destruct (two_last (Py.split "-" nvr)) as (pre & v & r & E); [lia|].
    rewrite (get_nvr_of_fields nvr pre v r E) in Hres.
    injection Hres as <- <- <-.
    rewrite E in Hclean. apply Forall_app in Hclean as [_ Hvr].
    inversion Hvr as [|? ? Hv Hr']; subst. inversion Hr' as [|? ? Hr _]; subst.
    split; [done|]. split; [done|].
    destruct pre as [|p pre].
    + right. rewrite E in Hlen. simpl in Hlen. split; [lia | done].
    + left. assert (Hjoin : Py.join "-" (Py.split "-" nvr) = nvr) by apply join_split.
      rewrite E, (join_app "-" (p :: pre) [v; r]) in Hjoin by done.
      remember (Py.join "-" (p :: pre)) as nm eqn:Hnm. clear Hnm.
      rewrite <- Hjoin in Hcount. rewrite !count_app in Hcount.
      simpl in Hcount. rewrite !count_app in Hcount. simpl in Hcount. lia.
Qed.

Lemma get_nvr_version_release_clean_witness :
  (Py.count "-" "1.2" = 0 /\ Py.count "-" "3.fc7" = 0 /\
   (Py.count "-" "python-kid-1.2-3.fc7" = Py.count "-" "python-kid" + 2 \/
    (Py.count "-" "python-kid-1.2-3.fc7" = 1 /\ "python-kid" = "")))%nat.
Proof.
  apply (get_nvr_version_release_clean "python-kid-1.2-3.fc7" "python-kid" "1.2" "3.fc7").
  reflexivity.
Defined.

(** X4. On a string with exactly one hyphen [get_nvr] does not fail: it
    returns an empty name with the two fields as version and release, and
    joining the three parts gives the input with a hyphen in front, not the
    input. *)
Theorem get_nvr_single_hyphen :
  forall nvr : string,
    Py.count "-" nvr = 1%nat ->
    exists version release : string,
      nvr = version +:+ "-" +:+ release /\
      get_nvr nvr = Return [""; version; release] /\
      Py.join "-" [""; version; release] = "-" +:+ nvr /\
      Py.join "-" [""; version; release] <> nvr.
Proof.
  intros nvr Hcount. pose proof (length_split "-" nvr) as Hlen.
  destruct (two_last (Py.split "-" nvr)) as (pre & v & r & E); [lia|].
  assert (pre = []) as -> by (rewrite E, length_app in Hlen; simpl in Hlen;
    destruct pre; [done | simpl in Hlen; lia]).
  exists v, r.
  assert (Hnvr : nvr = v +:+ "-" +:+ r).
  { rewrite <- (join_split "-" nvr) at 1. by rewrite E. }
  split; [exact Hnvr|]. split; [by apply (get_nvr_of_fields nvr [] v r)|].
  split; [by rewrite Hnvr|].
  rewrite Hnvr. change (Py.join "-" [""; v; r]) with ("-" +:+ v +:+ "-" +:+ r).
  intros Heq. apply (f_equal String.length) in Heq.
  change ("-" +:+ v +:+ "-" +:+ r) with (String "-" (v +:+ "-" +:+ r)) in Heq.
  simpl in Heq. lia.
Qed.

Lemma get_nvr_single_hyphen_witness :
  exists version release : string,
    "kernel-2.6" = version +:+ "-" +:+ release /\
    get_nvr "kernel-2.6" = Return [""; version; release] /\
    Py.join "-" [""; version; release] = "-" +:+ "kernel-2.6" /\
    Py.join "-" [""; version; release] <> "kernel-2.6".
Proof. apply (get_nvr_single_hyphen "kernel-2.6"). reflexivity. Defined.

(** X5. Decomposition undoes composition: for any name, hyphens and the
    empty name included, and any version and release without a hyphen,
    [get_nvr] of [name-version-release] returns the three parts. *)
Theorem get_nvr_of_join :
  forall name version release : string,
    Py.count "-" version = 0%nat ->
    Py.count "-" release = 0%nat ->
    get_nvr (Py.join "-" [name; version; release]) = Return [name; version; release].
Proof.
  intros name version release Hv Hr.
  change (Py.join "-" [name; version; release])
    with (name +:+ String "-" (version +:+ String "-" release)).
  rewrite (get_nvr_of_fields _ (Py.split "-" name) version release).
  - by rewrite join_split.
  - by rewrite !split_app_sep, (split_no_sep "-" version), (split_no_sep "-" release).
Qed.

Lemma get_nvr_of_join_witness :
  get_nvr (Py.join "-" ["python-kid"; "1.2"; "3.fc7"]) = Return ["python-kid"; "1.2"; "3.fc7"].
Proof. apply (get_nvr_of_join "python-kid" "1.2" "3.fc7"); reflexivity. Defined.

(** ** More on the header reader *)

(** X6. When the package opens and the bindings read a header, whichever
    generation of the bindings is loaded, [rpm_fileheader] returns that
    header, leaves the table of descriptors as it found it and adds a single
    debug record to the log. *)
Theorem rpm_fileheader_returns_header :
  forall (rpm : rpm_module) (pkgpath data : string) (h : rpmheader) (w : world),
    file_at w pkgpath = Some data ->
    parse_header rpm data = Return h ->
    fst (rpm_fileheader rpm pkgpath w) = Return h /\
    fds (snd (rpm_fileheader rpm pkgpath w)) = fds w /\
    logged (snd (rpm_fileheader rpm pkgpath w)) =
      logged w ++ [(DEBUG, "Grabbing the rpm header of " +:+ pkgpath)].
Proof.
  intros rpm pkgpath data h w Hfile Hparse.
  by rewrite (rpm_fileheader_parsed rpm w pkgpath data h).
Qed.

Lemma rpm_fileheader_returns_header_witness :
  let h := {| RPMTAG_EXCLUDEARCH := ["s390"]; RPMTAG_EXCLUSIVEARCH := [] |} in
  let rpm := {| has_opendb := false;
                headerFromPackage := fun _ => inl HdrNone;
                hdrFromFdno := fun _ => inl h |} in
  let w := World {[ ["srv"; "kid-0.9-1.noarch.rpm"] := "package bytes" ]} ∅ ∅ [] [] in
  fst (rpm_fileheader rpm "/srv/kid-0.9-1.noarch.rpm" w) = Return h /\
  fds (snd (rpm_fileheader rpm "/srv/kid-0.9-1.noarch.rpm" w)) = fds w /\
  logged (snd (rpm_fileheader rpm "/srv/kid-0.9-1.noarch.rpm" w)) =
    logged w ++ [(DEBUG, "Grabbing the rpm header of " +:+ "/srv/kid-0.9-1.noarch.rpm")].
Proof.
  intros h rpm w.
  apply (rpm_fileheader_returns_header rpm "/srv/kid-0.9-1.noarch.rpm" "package bytes" h w);
    reflexivity.
Defined.

(** X7. An exception of the bindings that is neither [OSError] nor
    [TypeError], such as [rpm.error], is not turned into [RPMNotFound]: the
    caller receives it as it was raised. *)
Theorem rpm_fileheader_passes_other_errors :
  forall (rpm : rpm_module) (pkgpath data : string) (e : exn) (w : world),
    file_at w pkgpath = Some data ->
    parse_header rpm data = Raise e ->
    e <> OSError -> e <> TypeError ->
    fst (rpm_fileheader rpm pkgpath w) = Raise e /\
    fst (rpm_fileheader rpm pkgpath w) <> Raise RPMNotFound.
Proof.
  intros rpm pkgpath data e w Hfile Hparse Hos Hty.
  rewrite (rpm_fileheader_unparsed rpm w pkgpath data e) by done. simpl.
  assert (Hh : handled e = false).
  { apply not_true_iff_false. rewrite handled_iff. tauto. }
  rewrite Hh. split; [done|]. intros [= ->].
  by destruct (parse_header_not_found rpm data).
Qed.

Lemma rpm_fileheader_passes_other_errors_witness :
  let rpm := {| has_opendb := false;
                headerFromPackage := fun _ => inl HdrNone;
                hdrFromFdno := fun _ => inr (RpmOther "rpm.error") |} in
  let w := World {[ ["srv"; "notes.txt"] := "not a package" ]} ∅ ∅ [] [] in
  fst (rpm_fileheader rpm "/srv/notes.txt" w) = Raise (OtherError "rpm.error") /\
  fst (rpm_fileheader rpm "/srv/notes.txt" w) <> Raise RPMNotFound.
Proof.
  intros rpm w.
  apply (rpm_fileheader_passes_other_errors rpm "/srv/notes.txt" "not a package"
           (OtherError "rpm.error") w); [reflexivity | reflexivity | discriminate | discriminate].
Defined.

(** X8. Whenever the package opens and the header read raises, whatever the
    exception, the call leaves exactly one more descriptor open than it
    found, and that descriptor reads the package. *)
Theorem rpm_fileheader_failed_read_leaks_one :
  forall (rpm : rpm_module) (pkgpath data : string) (e : exn) (w : world),
    file_at w pkgpath = Some data ->
    parse_header rpm data = Raise e ->
    size (fds (snd (rpm_fileheader rpm pkgpath w))) = S (size (fds w)) /\
    exists fd : nat,
      fds w !! fd = None /\
      fd_content (snd (rpm_fileheader rpm pkgpath w)) fd = Some data.
Proof.
  intros rpm pkgpath data e w Hfile Hparse.
  rewrite (rpm_fileheader_unparsed rpm w pkgpath data e) by done. simpl.
  split; [apply map_size_insert_None, fresh_fd_unused|].
  exists (fresh (dom (fds w))). split; [apply fresh_fd_unused|].
  unfold fd_content. simpl. by rewrite lookup_insert_eq.
Qed.

Lemma rpm_fileheader_failed_read_leaks_one_witness :
  let rpm := {| has_opendb := true;
                headerFromPackage := fun _ => inl HdrNone;
                hdrFromFdno := fun _ => inr RpmTypeError |} in
  let w := World {[ ["srv"; "notes.txt"] := "not a package" ]} ∅
                 {[ 0%nat := ["srv"; "notes.txt"] ]} [] [] in
  size (fds (snd (rpm_fileheader rpm "/srv/notes.txt" w))) = S (size (fds w)) /\
  exists fd : nat,
    fds w !! fd = None /\
    fd_content (snd (rpm_fileheader rpm "/srv/notes.txt" w)) fd = Some "not a package".
Proof.
  intros rpm w.
  apply (rpm_fileheader_failed_read_leaks_one rpm "/srv/notes.txt" "not a package" TypeError w);
    reflexivity.
Defined.

(** X9. On every path, [rpm_fileheader] leaves the files, the directories
    and the record of createrepo calls untouched and logs exactly one debug
    record, before anything else is tried. *)
Theorem rpm_fileheader_frame :
  forall (rpm : rpm_module) (pkgpath : string) (w : world),
    let w' := snd (rpm_fileheader rpm pkgpath w) in
    files w' = files w /\ dirs w' = dirs w /\
    createrepo_calls w' = createrepo_calls w /\
    logged w' = logged w ++ [(DEBUG, "Grabbing the rpm header of " +:+ pkgpath)].
Proof.
  intros rpm pkgpath w. destruct (file_at w pkgpath) as [data|] eqn:Hfile.
  - destruct (parse_header rpm data) as [h|e] eqn:Hparse.
    + by rewrite (rpm_fileheader_parsed rpm w pkgpath data h).
    + by rewrite (rpm_fileheader_unparsed rpm w pkgpath data e).
  - by rewrite (rpm_fileheader_missing rpm w pkgpath).
Qed.

(** ** More on the content hasher *)

Section Digest.

Implicit Types (s t : string) (x d : Z) (n : nat).

Lemma length_append s t : String.length (s +:+ t) = (String.length s + String.length t)%nat.
Proof. induction s as [|c s IH]; [done|]. rewrite append_cons. simpl. by rewrite IH. Qed.

Lemma all_hex_app s t : all_hex (s +:+ t) = all_hex s && all_hex t.
Proof.
  induction s as [|c s IH]; [done|]. rewrite append_cons. simpl.
  by rewrite IH, andb_assoc.
Qed.

Lemma hex_digit_is_hex d : 0 <= d < 16 -> is_hex_digit (Sha.hex_digit d) = true.
Proof.
  intros Hd.
  assert (H : d = 0 \/ d = 1 \/ d = 2 \/ d = 3 \/ d = 4 \/ d = 5 \/ d = 6 \/ d = 7 \/
              d = 8 \/ d = 9 \/ d = 10 \/ d = 11 \/ d = 12 \/ d = 13 \/ d = 14 \/ d = 15)
    by lia.
  repeat (destruct H as [->|H]; [reflexivity|]). by subst.
Qed.

Lemma hex_length n x : String.length (Sha.hex n x) = n.
Proof. induction n as [|n IH]; simpl; [done|]. by rewrite IH. Qed.

Lemma hex_all_hex n x : all_hex (Sha.hex n x) = true.
Proof.
  induction n as [|n IH]; [done|].
  change (Sha.hex (S n) x) with
    (String (Sha.hex_digit (Z.shiftr x (4 * Z.of_nat n) mod 16)) (Sha.hex n x)).
  cbn [all_hex]. rewrite IH, andb_true_r.
  apply hex_digit_is_hex, Z.mod_pos_bound. lia.
Qed.

Lemma hexdigest_format (st : Sha.state) :
  String.length (Sha.hexdigest st) = 40%nat /\ all_hex (Sha.hexdigest st) = true.
Proof.
  destruct st as [[[[a b] c] d] e]. unfold Sha.hexdigest.
  rewrite !length_append, !all_hex_app, !hex_length, !hex_all_hex. done.
Qed.

End Digest.

(** X10. [sha1sum] raises [IOError] exactly when the path names no regular
    file, and in every case it leaves the state as it found it: no
    descriptor stays open and nothing is logged. *)
Theorem sha1sum_leaves_state :
  forall (file : string) (w : world),
    snd (sha1sum file w) = w /\
    (fst (sha1sum file w) = Raise IOError <-> file_at w file = None).
Proof.
  intros file w. destruct (file_at w file) as [data|] eqn:Hfile.
  - rewrite (sha1sum_present w file data Hfile). simpl. split; [done|]. by split.
  - rewrite (sha1sum_missing w file Hfile). simpl. by split.
Qed.

(** X11. Every digest that [sha1sum] returns is a string of forty
    hexadecimal digits in lower case. *)
Theorem sha1sum_digest_format :
  forall (file digest : string) (w : world),
    fst (sha1sum file w) = Return digest ->
    String.length digest = 40%nat /\ all_hex digest = true.
Proof.
  intros file digest w. destruct (file_at w file) as [data|] eqn:Hfile.
  - rewrite (sha1sum_present w file data Hfile). simpl. intros [= <-].
    apply hexdigest_format.
  - by rewrite (sha1sum_missing w file Hfile).
Qed.

Lemma sha1sum_digest_format_witness :
  String.length "aaf4c61ddcc5e8a2dabede0f3b482cd9aea9434d" = 40%nat /\
  all_hex "aaf4c61ddcc5e8a2dabede0f3b482cd9aea9434d" = true.
Proof.
  apply (sha1sum_digest_format "/srv/a.rpm" "aaf4c61ddcc5e8a2dabede0f3b482cd9aea9434d"
           (World {[ ["srv"; "a.rpm"] := "hello" ]} ∅ ∅ [] [])).
  vm_compute. reflexivity.
Defined.

(** ** More on the metadata directory *)

Section MetadataDirectoryEdges.

Context (config : gmap string string) (indexer : list string -> world -> outcome unit).
Implicit Types (w : world) (dir : string).


(** [os.makedirs] changes nothing when it raises. *)
Lemma os_makedirs_blocked w dir :
  dir = "" \/ (exists p, p ∈ Path.prefixes (Path.resolve dir) /\ is_Some (files w !! p)) ->
  os_makedirs dir w = (Raise OSError, w).
Proof.
  intros Hblock. unfold os_makedirs.
  destruct (bool_decide (Path.resolve dir = []) || bool_decide (Path.resolve dir ∈ dirs w))
    eqn:Hfirst; [done|].
  destruct Hblock as [->|(p & Hp & Hsome)].
  - by rewrite resolve_empty in Hfirst.
  - assert (Hex : existsb (fun p => bool_decide (is_Some (files w !! p)))
                    (Path.prefixes (Path.resolve dir)) = true).
    { apply existsb_exists. exists p. split; [by apply list_elem_of_In|].
      by apply bool_decide_eq_true. }
    by rewrite Hex.
Qed.

Lemma mkmetadatadir_raises w dir :
  ~ is_directory w dir ->
  os_makedirs dir (add_log (DEBUG, "mkmetadatadir(" +:+ dir +:+ ")") w) =
    (Raise OSError, add_log (DEBUG, "mkmetadatadir(" +:+ dir +:+ ")") w) ->
  mkmetadatadir config indexer dir w =
    (Raise OSError, add_log (DEBUG, "mkmetadatadir(" +:+ dir +:+ ")") w).
Proof.
  intros Hno Hmk. unfold mkmetadatadir, log_debug.
  assert (H0 : ~ is_directory (add_log (DEBUG, "mkmetadatadir(" +:+ dir +:+ ")") w) dir).
  { intros H. apply Hno. by apply (is_directory_add_log w dir) in H. }
  unfold bindM at 1. unfold bindM at 1. rewrite isdir_false by exact H0.
  unfold bindM at 1. change (negb false) with true. cbv iota. by rewrite Hmk.
Qed.


End MetadataDirectoryEdges.

(** X12. When the path is empty, or when it is not a directory and a
    regular file stands at it or on the way to it, [mkmetadatadir] raises
    [OSError]: no directory is made and the indexer is not called. *)
Theorem mkmetadatadir_blocked_by_file :
  forall (config : gmap string string) (indexer : list string -> world -> outcome unit)
         (dir : string) (w : world),
    ~ is_directory w dir ->
    dir = "" \/ (exists p, p ∈ Path.prefixes (Path.resolve dir) /\ is_Some (files w !! p)) ->
    fst (mkmetadatadir config indexer dir w) = Raise OSError /\
    dirs (snd (mkmetadatadir config indexer dir w)) = dirs w /\
    createrepo_calls (snd (mkmetadatadir config indexer dir w)) = createrepo_calls w.
Proof.
  intros config indexer dir w Hno Hblock.
  rewrite (mkmetadatadir_raises config indexer w dir Hno); [done|].
  apply os_makedirs_blocked. destruct Hblock as [?|(p & Hp & Hsome)]; [by left|].
  right. by exists p.
Qed.

Lemma mkmetadatadir_blocked_by_file_witness :
  let w := World {[ ["srv"; "updates"] := "a file" ]} {[ ["srv"] ]} ∅ [] [] in
  let r := mkmetadatadir ∅ (fun _ _ => Return tt) "/srv/updates/f7/i386" w in
  fst r = Raise OSError /\ dirs (snd r) = dirs w /\ createrepo_calls (snd r) = createrepo_calls w.
Proof.
  intros w.
  apply (mkmetadatadir_blocked_by_file ∅ (fun _ _ => Return tt) "/srv/updates/f7/i386" w).
  - rewrite is_directory_iff. intros [_ [H|H]]; [discriminate H|].
    vm_compute in H. discriminate H.
  - right. exists ["srv"; "updates"]. split; [|by eexists].
    vm_compute. apply elem_of_cons. right. apply elem_of_cons. by left.
Defined.





(** ** More on the repo tag resolver *)

Section RepoTagEdges.

Context (config : gmap string string).
Implicit Types (w : world) (repo path data line s t : string) (cur : list ascii).

Lemma get_repo_tag_unconfigured w repo :
  config !! "mash_conf" = None ->
  get_repo_tag config repo w = (Raise AttributeError, w).
Proof.
  intros Hconf. unfold get_repo_tag.
  rewrite (bindM_raise _ _ w w AttributeError); [done|].
  unfold lift, mashconfig_path. by rewrite Hconf.
Qed.

(** The head and the tail that [rsplit] cuts at the last slash. *)
Lemma rsplit_trailing_slash s :
  snd (Path.rsplit (s +:+ "/")) = "" /\ fst (Path.rsplit (s +:+ "/")) <> "".
Proof.
  induction s as [|c s [IHt IHh]]; [done|].
  rewrite append_cons. simpl.
  destruct (Path.rsplit (s +:+ "/")) as [h t]. simpl in *. subst t.
  destruct (Ascii.eqb c "/"); [done|].
  destruct (String.eqb_spec h ""); [done | done].
Qed.

Lemma basename_trailing_slash s : Path.basename (s +:+ "/") = "".
Proof. unfold Path.basename. apply rsplit_trailing_slash. Qed.

(** What [str.split()] returns are words: not empty, and without white
    space. *)
Lemma flush_words cur :
  forallb (fun c => negb (Py.isspace c)) cur = true ->
  Forall (fun t => t <> "" /\ no_space t = true) (flush cur).
Proof.
  intros Hcur. destruct cur as [|c cur]; [constructor|].
  unfold flush. constructor; [|constructor]. split.
  - intros H. apply (f_equal list_ascii_of_string) in H.
    rewrite list_ascii_of_string_of_list_ascii in H. simpl in H.
    by destruct (rev cur).
  - by rewrite no_space_forallb, list_ascii_of_string_of_list_ascii, forallb_rev.
Qed.

Lemma split_ws_aux_words cur s :
  forallb (fun c => negb (Py.isspace c)) cur = true ->
  Forall (fun t => t <> "" /\ no_space t = true) (Py.split_ws_aux cur s).
Proof.
  revert cur. induction s as [|c s IH]; intros cur Hcur.
  - by apply flush_words in Hcur.
  - simpl. destruct (Py.isspace c) eqn:Hc.
    + destruct cur as [|d cur]; [by apply IH|].
      pose proof (flush_words (d :: cur) Hcur) as Hw.
      inversion Hw; subst. constructor; [done|]. by apply IH.
    + apply IH. simpl. by rewrite Hc.
Qed.

Lemma index_elem {A : Type} (l : list A) (i : Z) (x : A) :
  Py.index l i = Return x -> x ∈ l.
Proof.
  unfold Py.index. destruct (_ && _); [|done].
  destruct (nth_error l _) as [a|] eqn:E; [|done]. intros [= <-].
  apply list_elem_of_In. by eapply nth_error_In.
Qed.

(** Every path through [get_repo_tag]. *)
Lemma get_repo_tag_cases w repo :
  match mashconfig_path config repo with
  | Raise e => get_repo_tag config repo w = (Raise e, w)
  | Return path =>
      match file_at w path with
      | None =>
          get_repo_tag config repo w =
            (Return None,
             add_log (ERROR, "Cannot find mash configuration for " +:+ repo +:+ ": " +:+ path) w)
      | Some data =>
          get_repo_tag config repo w =
            (line ← Py.index (List.filter (Py.startswith "tag =") (lines_of data)) 0;
             tag ← Py.index (Py.split_ws line) (-1);
             mret (Some tag), w)
      end
  end.
Proof.
  destruct (mashconfig_path config repo) as [path|e] eqn:Hpath.
  - destruct (file_at w path) as [data|] eqn:Hfile.
    + by apply (get_repo_tag_present config w repo path data).
    + by apply (get_repo_tag_absent config w repo path).
  - unfold get_repo_tag. rewrite (bindM_raise _ _ w w e); [done|].
    unfold lift. by rewrite Hpath.
Qed.

End RepoTagEdges.

(** X15. Without [mash_conf] in the configuration, [get_repo_tag] raises
    [AttributeError] for every repository, whether its file exists or not,
    and logs nothing. *)
Theorem get_repo_tag_without_mash_conf :
  forall (config : gmap string string) (repo : string) (w : world),
    config !! "mash_conf" = None ->
    get_repo_tag config repo w = (Raise AttributeError, w).
Proof. intros config repo w Hconf. by apply get_repo_tag_unconfigured. Qed.

Lemma get_repo_tag_without_mash_conf_witness :
  let w := World {[ ["f30-updates.mash"] := "tag = f30-updates" ]} ∅ ∅ [] [] in
  get_repo_tag {[ "createrepo_cache_dir" := "/var/cache" ]} "f30-updates" w =
    (Raise AttributeError, w).
Proof.
  intros w.
  apply (get_repo_tag_without_mash_conf {[ "createrepo_cache_dir" := "/var/cache" ]}).
  reflexivity.
Defined.

(** X16. Only the last segment of the repository path counts: two paths
    with the same base name resolve to the same result. *)
Theorem get_repo_tag_by_basename :
  forall (config : gmap string string) (repo1 repo2 : string) (w : world),
    Path.basename repo1 = Path.basename repo2 ->
    fst (get_repo_tag config repo1 w) = fst (get_repo_tag config repo2 w).
Proof.
  intros config repo1 repo2 w Hbase.
  pose proof (get_repo_tag_cases config w repo1) as H1.
  pose proof (get_repo_tag_cases config w repo2) as H2.
  assert (Hpath : mashconfig_path config repo1 = mashconfig_path config repo2).
  { unfold mashconfig_path. by rewrite Hbase. }
  rewrite <- Hpath in H2.
  destruct (mashconfig_path config repo1) as [path|e]; [|by rewrite H1, H2].
  destruct (file_at w path); by rewrite H1, H2.
Qed.

Lemma get_repo_tag_by_basename_witness :
  let config : gmap string string := {[ "mash_conf" := "/etc/bodhi/mash.conf" ]} in
  let w := World {[ ["etc"; "bodhi"; "f30-updates.mash"] := "tag = f30-updates" ]} ∅ ∅ [] [] in
  fst (get_repo_tag config "/mnt/koji/mash/f30-updates" w) =
  fst (get_repo_tag config "f30-updates" w).
Proof.
  intros config w.
  apply (get_repo_tag_by_basename config "/mnt/koji/mash/f30-updates" "f30-updates" w).
  reflexivity.
Defined.

(** X17. A repository path that ends with a slash has an empty base name:
    whatever comes before the slash, the file looked up is [.mash] in the
    configuration directory, and the result is that of the empty path. *)
Theorem get_repo_tag_trailing_slash :
  forall (config : gmap string string) (repo : string) (w : world),
    mashconfig_path config (repo +:+ "/") =
      (d ← dirname_of (config !! "mash_conf"); mret (Path.join d ".mash")) /\
    fst (get_repo_tag config (repo +:+ "/") w) = fst (get_repo_tag config "" w).
Proof.
  intros config repo w. split.
  - unfold mashconfig_path. by rewrite basename_trailing_slash.
  - apply get_repo_tag_by_basename. by rewrite basename_trailing_slash.
Qed.

(** X18. A tag that [get_repo_tag] returns is a word: it is not empty and
    holds no white space, so no line feed either. *)
Theorem get_repo_tag_is_word :
  forall (config : gmap string string) (repo tag : string) (w : world),
    fst (get_repo_tag config repo w) = Return (Some tag) ->
    tag <> "" /\ no_space tag = true.
Proof.
  intros config repo tag w.
  pose proof (get_repo_tag_cases config w repo) as H.
  destruct (mashconfig_path config repo) as [path|e]; [|by rewrite H].
  destruct (file_at w path) as [data|]; rewrite H; cbn [fst]; [|done].
  cbv [mbind outcome_bind mret outcome_ret].
  destruct (Py.index (List.filter (Py.startswith "tag =") (lines_of data)) 0)
    as [line|e]; [|done].
  destruct (Py.index (Py.split_ws line) (-1)) as [t|e] eqn:E; [|done].
  intros [= <-]. apply index_elem in E.
  pose proof (split_ws_aux_words [] line eq_refl) as Hwords.
  rewrite Forall_forall in Hwords. by apply Hwords.
Qed.

Lemma get_repo_tag_is_word_witness :
  "f30-updates" <> "" /\ no_space "f30-updates" = true.
Proof.
  apply (get_repo_tag_is_word {[ "mash_conf" := "/etc/bodhi/mash.conf" ]}
           "/mnt/koji/mash/f30-updates" "f30-updates"
           (World {[ ["etc"; "bodhi"; "f30-updates.mash"] := "tag = f30-updates
" ]} ∅ ∅ [] [])).
  vm_compute. reflexivity.
Defined.

(** X19. When nothing but white space follows [tag =] on the first line
    that starts with it, the string returned is the equals sign. *)
Theorem get_repo_tag_bare_tag_line :
  forall (config : gmap string string) (repo mash_conf data ws : string)
         (pre post : list string) (w : world),
    config !! "mash_conf" = Some mash_conf ->
    file_at w (Path.join (Path.dirname mash_conf) (Path.basename repo +:+ ".mash")) = Some data ->
    lines_of data = pre ++ ("tag =" +:+ ws) :: post ->
    Forall (fun x => Py.startswith "tag =" x = false) pre ->
    all_space ws = true ->
    get_repo_tag config repo w = (Return (Some "="), w).
Proof.
  intros config repo mash_conf data ws pre post w Hconf Hfile Hlines Hpre Hws.
  pose proof (mashconfig_path_configured config repo mash_conf Hconf) as Hpath.
  rewrite (get_repo_tag_first_match config w repo _ data pre ("tag =" +:+ ws) post
             Hpath Hfile Hlines Hpre).
  - do 3 f_equal. unfold last_token, Py.split_ws.
    change ("tag =" +:+ ws)
      with (String "t" (String "a" (String "g" (String " " (String "=" ws))))).
    change (Py.split_ws_aux [] (String "t" (String "a" (String "g" (String " "
              (String "=" ws))))))
      with ("tag" :: Py.split_ws_aux ["="%char] ws).
    by rewrite split_ws_aux_spaces.
  - apply startswith_app. by exists ws.
Qed.

Lemma get_repo_tag_bare_tag_line_witness :
  let config : gmap string string := {[ "mash_conf" := "/etc/bodhi/mash.conf" ]} in
  let w := World {[ ["etc"; "bodhi"; "f30-updates.mash"] := "[f30-updates]
tag = 
" ]} ∅ ∅ [] [] in
  get_repo_tag config "f30-updates" w = (Return (Some "="), w).
Proof.
  intros config w.
  apply (get_repo_tag_bare_tag_line config "f30-updates" "/etc/bodhi/mash.conf" "[f30-updates]
tag = 
" " 
" ["[f30-updates]
"] [] w); try reflexivity.
  by constructor.
Defined.

(** X20. [get_repo_tag] never writes: on every path the files, the
    directories, the open descriptors and the record of createrepo calls
    are as before. The log grows, by one error record, exactly when the
    result is [None]. *)
Theorem get_repo_tag_frame :
  forall (config : gmap string string) (repo : string) (w : world),
    let r := get_repo_tag config repo w in
    files (snd r) = files w /\ dirs (snd r) = dirs w /\ fds (snd r) = fds w /\
    createrepo_calls (snd r) = createrepo_calls w /\
    (fst r = Return None <-> exists msg, logged (snd r) = logged w ++ [(ERROR, msg)]) /\
    (fst r <> Return None <-> logged (snd r) = logged w).
Proof.
  intros config repo w r. subst r.
  assert (Hgrow : forall (l : list (loglevel * string)) x, l ++ [x] <> l).
  { intros l x H. apply (f_equal length) in H. rewrite length_app in H. simpl in H. lia. }
  pose proof (get_repo_tag_cases config w repo) as H.
  destruct (mashconfig_path config repo) as [path|e].
  - destruct (file_at w path) as [data|]; rewrite H; cbn [fst snd].
    + repeat (split; [done|]).
      cbv [mbind outcome_bind mret outcome_ret].
      destruct (Py.index (List.filter (Py.startswith "tag =") (lines_of data)) 0)
        as [line|e].
      * destruct (Py.index (Py.split_ws line) (-1)) as [t|e].
        -- split; [split; [done | by intros [msg Hm%symmetry%Hgrow]] | done].
        -- split; [split; [done | by intros [msg Hm%symmetry%Hgrow]] | done].
      * split; [split; [done | by intros [msg Hm%symmetry%Hgrow]] | done].
    + repeat (split; [done|]).
      split; [split; [by eexists | done]|].
      split; [done | by intros Hm%Hgrow].
  - rewrite H. cbn [fst snd]. repeat (split; [done|]).
    split; [split; [done | by intros [msg Hm%symmetry%Hgrow]] | done].
Qed.

(** ** Headings *)

Section Headings.

Implicit Types (s t x : string).

(** A text without line feed, then a line feed: one line. *)
Lemma lines_of_line s t :
  Py.count "010" s = 0%nat ->
  lines_of (s +:+ nl +:+ t) = (s +:+ nl) :: lines_of t.
Proof.
  induction s as [|c s IH]; [done|].
  rewrite !append_cons. simpl. destruct (Ascii.eqb c "010"); [done|].
  intros Hs. by rewrite IH.
Qed.

Lemma lines_of_last_line s :
  Py.count "010" s = 0%nat -> lines_of (s +:+ nl) = [s +:+ nl].
Proof.
  intros Hs. pose proof (lines_of_line s "" Hs) as H.
  by rewrite append_nil_r in H.
Qed.

Lemma repeat_str_length s (n : nat) :
  String.length (repeat_str s n) = (n * String.length s)%nat.
Proof. induction n as [|n IH]; [done|]. simpl. by rewrite length_append, IH. Qed.

End Headings.

(** X21. For a message without line feed, [header] gives three lines:
    a rule of eighty [=], the message after five spaces, and the rule
    again, each ended by a line feed; the heading is 168 characters longer
    than the message. *)
Theorem header_lines :
  forall x : string,
    Py.count "010" x = 0%nat ->
    lines_of (header x) =
      [repeat_str "=" 80 +:+ nl; "     " +:+ x +:+ nl; repeat_str "=" 80 +:+ nl] /\
    String.length (header x) = (168 + String.length x)%nat.
Proof.
  intros x Hx. unfold header. split.
  - rewrite lines_of_line by (vm_compute; reflexivity).
    rewrite <- (append_assoc "     " x). rewrite lines_of_line.
    2:{ rewrite count_app, Hx. reflexivity. }
    rewrite lines_of_last_line by (vm_compute; reflexivity).
    by rewrite append_assoc.
  - rewrite !length_append, repeat_str_length. simpl. lia.
Qed.

Lemma header_lines_witness :
  lines_of (header "Pushing updates") =
    [repeat_str "=" 80 +:+ nl; "     " +:+ "Pushing updates" +:+ nl; repeat_str "=" 80 +:+ nl] /\
  String.length (header "Pushing updates") = (168 + String.length "Pushing updates")%nat.
Proof. apply (header_lines "Pushing updates"). reflexivity. Defined.

(** ** Ages *)

Section Ages.

Implicit Types (utcnow date e n : Z).

Lemma us_per_day_pos : 0 < us_per_day.
Proof. reflexivity. Qed.

(** The days of a difference are the whole days elapsed, rounded down. *)
Lemma days_floor utcnow date n :
  days (datetime_sub utcnow date) = n <->
  n * us_per_day <= utcnow - date < (n + 1) * us_per_day.
Proof.
  unfold datetime_sub. simpl. pose proof us_per_day_pos as Hpos.
  set (e := utcnow - date). split.
  - intros <-. pose proof (Z.mul_div_le e us_per_day Hpos).
    pose proof (Z.mul_succ_div_gt e us_per_day Hpos). lia.
  - intros [Hlo Hhi]. symmetry.
    apply (Z.div_unique e us_per_day n (e - n * us_per_day)); lia.
Qed.

(** Within the first day the seconds of the difference are the whole
    seconds elapsed. *)
Lemma seconds_within_day utcnow date :
  0 <= utcnow - date < us_per_day ->
  seconds (datetime_sub utcnow date) = (utcnow - date) / us_per_second.
Proof.
  intros He. unfold datetime_sub. simpl. by rewrite Z.mod_small.
Qed.

(** Outside the first day the days are printed. *)
Lemma get_age_days utcnow date :
  utcnow - date < 0 \/ us_per_day <= utcnow - date ->
  get_age utcnow date = str_int ((utcnow - date) / us_per_day) +:+ " days".
Proof.
  intros Hout. unfold get_age.
  assert (Hd : days (datetime_sub utcnow date) <> 0).
  { intros Hd. apply days_floor in Hd. lia. }
  apply Z.eqb_neq in Hd. by rewrite Hd.
Qed.

(** Within the first day the whole seconds elapsed are compared with 60. *)
Lemma get_age_first_day utcnow date :
  0 <= utcnow - date < us_per_day ->
  get_age utcnow date =
    if (utcnow - date) / us_per_second <? 60
    then str_int ((utcnow - date) / us_per_second) +:+ " seconds"
    else str_int ((utcnow - date) / us_per_second / 60) +:+ " minutes".
Proof.
  intros He. unfold get_age.
  assert (Hd : days (datetime_sub utcnow date) = 0) by (apply days_floor; lia).
  rewrite Hd. simpl Z.eqb. cbv iota. by rewrite seconds_within_day.
Qed.

Lemma seconds_below_minute e :
  (e / us_per_second <? 60) = (e <? 60 * us_per_second).
Proof.
  assert (Hs : 0 < us_per_second) by reflexivity.
  destruct (e <? 60 * us_per_second) eqn:Hmin.
  - apply Z.ltb_lt in Hmin. apply Z.ltb_lt, Z.div_lt_upper_bound; lia.
  - apply Z.ltb_ge in Hmin. apply Z.ltb_ge, Z.div_le_lower_bound; lia.
Qed.

End Ages.

(** X22. [get_age] in terms of the time elapsed since the date, in
    microseconds: whole seconds within the first minute, whole minutes
    within the rest of the first day, and otherwise the whole days, rounded
    down, which covers dates in the future. *)
Theorem get_age_by_elapsed :
  forall utcnow date : Z,
    get_age utcnow date =
      let e := utcnow - date in
      if (e <? 0) || (us_per_day <=? e) then str_int (e / us_per_day) +:+ " days"
      else if e <? 60 * us_per_second then str_int (e / us_per_second) +:+ " seconds"
      else str_int (e / (60 * us_per_second)) +:+ " minutes".
Proof.
  intros utcnow date. cbv zeta.
  destruct ((utcnow - date <? 0) || (us_per_day <=? utcnow - date)) eqn:Hout.
  - apply get_age_days.
    apply orb_true_iff in Hout as [H%Z.ltb_lt|H%Z.leb_le]; [by left | by right].
  - apply orb_false_iff in Hout as [H1%Z.ltb_ge H2%Z.leb_gt].
    rewrite get_age_first_day, seconds_below_minute by lia.
    by rewrite Z.div_div, (Z.mul_comm us_per_second 60) by (unfold us_per_second; lia).
Qed.

(** X23. From one minute to one day the age is given in minutes, from 1 up
    to 1439: hours are never used. *)
Theorem get_age_minutes :
  forall utcnow date : Z,
    60 * us_per_second <= utcnow - date < us_per_day ->
    exists m : Z,
      1 <= m <= 1439 /\
      m = (utcnow - date) / (60 * us_per_second) /\
      get_age utcnow date = str_int m +:+ " minutes".
Proof.
  intros utcnow date [Hlo Hhi].
  exists ((utcnow - date) / (60 * us_per_second)).
  assert (H60 : 0 < 60 * us_per_second) by reflexivity.
  split; [|split; [done|]].
  - split.
    + apply Z.div_le_lower_bound; lia.
    + assert ((utcnow - date) / (60 * us_per_second) < 1440); [|lia].
      apply Z.div_lt_upper_bound; [lia|]. unfold us_per_day in Hhi. lia.
  - rewrite get_age_first_day, seconds_below_minute by lia.
    assert (H3 : (utcnow - date <? 60 * us_per_second) = false) by (apply Z.ltb_ge; lia).
    rewrite H3.
    by rewrite Z.div_div, (Z.mul_comm us_per_second 60) by (unfold us_per_second; lia).
Qed.

Lemma get_age_minutes_witness :
  exists m : Z,
    1 <= m <= 1439 /\
    m = (1190000000000000 + 3 * 3600 * us_per_second - 1190000000000000) / (60 * us_per_second) /\
    get_age (1190000000000000 + 3 * 3600 * us_per_second) 1190000000000000 =
      str_int m +:+ " minutes".
Proof.
  apply (get_age_minutes (1190000000000000 + 3 * 3600 * us_per_second) 1190000000000000).
  unfold us_per_day, us_per_second. lia.
Defined.

(** X24. For a date in the future, however near, [get_age] gives a negative
    number of days, [-1 days] at the least. *)
Theorem get_age_future :
  forall utcnow date : Z,
    utcnow < date ->
    exists d : Z,
      d <= -1 /\ get_age utcnow date = str_int d +:+ " days".
Proof.
  intros utcnow date Hlt. exists ((utcnow - date) / us_per_day). split.
  - assert ((utcnow - date) / us_per_day < 0); [|lia].
    apply Z.div_lt_upper_bound; [reflexivity | lia].
  - apply get_age_days. left. lia.
Qed.

Lemma get_age_future_witness :
  exists d : Z, d <= -1 /\ get_age 1190000000000000 1190000000000001 = str_int d +:+ " days".
Proof. apply (get_age_future 1190000000000000 1190000000000001). reflexivity. Defined.

(** X25. [get_age_in_days] is the number of whole days elapsed, rounded
    down: it is [n] exactly when the time elapsed is at least [n] days and
    less than [n + 1]; without a date it is 0, as for a date less than a day
    old. *)
Theorem get_age_in_days_floor :
  forall utcnow date n : Z,
    (get_age_in_days utcnow (Some date) = n <->
       n * us_per_day <= utcnow - date < (n + 1) * us_per_day) /\
    get_age_in_days utcnow None = 0.
Proof. intros utcnow date n. split; [apply days_floor | done]. Qed.

(** ** Release names *)

Section Releases.

Implicit Types (release : gmap string string) (releases : list (gmap string string))
  (names out : list string).

Lemma getitem_return release key v : getitem release key = Return v <-> release !! key = Some v.
Proof.
  unfold getitem. destruct (release !! key); split; intros H; by simplify_eq.
Qed.

Lemma getitem_raise release key e :
  getitem release key = Raise e <-> release !! key = None /\ e = OtherError "KeyError".
Proof.
  unfold getitem. destruct (release !! key); split; [done | by intros [? _] | | ].
  - by intros [= <-].
  - by intros [_ ->].
Qed.

(** The loop only ever adds two items for each release, behind what it was
    given. *)
Lemma release_tuples_loop_return names releases out :
  release_tuples_loop names releases = Return out ->
  exists tail,
    out = names ++ tail /\
    length tail = (2 * length releases)%nat /\
    get_release_names releases = Return (odd_items tail) /\
    (forall (i : nat) release,
       releases !! i = Some release ->
       tail !! (2 * i)%nat = release !! "name" /\
       tail !! (2 * i + 1)%nat = release !! "long_name").
Proof.
  revert names. induction releases as [|r rest IH]; intros names;
    cbn [release_tuples_loop].
  - intros [= <-]. exists []. rewrite app_nil_r. by repeat split.
  - destruct (getitem r "name") as [n|e] eqn:Hn; [|done].
    destruct (getitem r "long_name") as [l|e] eqn:Hl; [|done].
    cbv [mbind outcome_bind mret outcome_ret]. intros Hloop.
    destruct (IH _ Hloop) as (tail & -> & Hlen & Hnames & Hitems).
    exists (n :: l :: tail). split; [by rewrite <- !app_assoc|].
    split; [simpl; lia|]. split.
    + cbn [get_release_names odd_items]. rewrite Hl, Hnames. reflexivity.
    + intros [|i] release Hi.
      * injection Hi as <-. apply getitem_return in Hn, Hl. by rewrite Hn, Hl.
      * simpl in Hi. destruct (Hitems i release Hi) as [H1 H2].
        replace (2 * S i)%nat with (S (S (2 * i))) by lia.
        replace (S (S (2 * i)) + 1)%nat with (S (S (2 * i + 1))) by lia.
        split; [exact H1 | exact H2].
Qed.

Lemma release_tuples_loop_total names releases :
  Forall (fun r => is_Some (r !! "name") /\ is_Some (r !! "long_name")) releases ->
  exists out, release_tuples_loop names releases = Return out.
Proof.
  intros Hall. revert names. induction Hall as [|r rest [[n Hn] [l Hl]] _ IH]; intros names.
  - by eexists.
  - simpl. unfold getitem. rewrite Hn, Hl. cbv [mbind outcome_bind mret outcome_ret].
    apply IH.
Qed.

Lemma release_tuples_loop_raise names releases e :
  release_tuples_loop names releases = Raise e <->
  e = OtherError "KeyError" /\
  exists r, r ∈ releases /\ (r !! "name" = None \/ r !! "long_name" = None).
Proof.
  revert names. induction releases as [|r rest IH]; intros names; simpl.
  - split; [done|]. intros (_ & r & Hr & _). by apply not_elem_of_nil in Hr.
  - unfold getitem. destruct (r !! "name") as [n|] eqn:Hn.
    + destruct (r !! "long_name") as [l|] eqn:Hl; cbv [mbind outcome_bind mret outcome_ret].
      * rewrite IH. split; intros (He & r' & Hr' & Hlack); (split; [done|]).
        -- exists r'. split; [by apply elem_of_cons; right | done].
        -- exists r'. split; [|done].
           apply elem_of_cons in Hr' as [->|?]; [|done].
           destruct Hlack; congruence.
      * split; [intros [= <-]; split; [done|] | by intros [-> _]].
        exists r. split; [by apply elem_of_cons; left | by right].
    + cbv [mbind outcome_bind mret outcome_ret].
      split; [intros [= <-]; split; [done|] | by intros [-> _]].
      exists r. split; [by apply elem_of_cons; left | by left].
Qed.

Lemma get_release_names_raise releases e :
  get_release_names releases = Raise e <->
  e = OtherError "KeyError" /\ exists r, r ∈ releases /\ r !! "long_name" = None.
Proof.
  revert e. induction releases as [|r rest IH]; intros e; simpl.
  - split; [done|]. intros (_ & r & Hr & _). by apply not_elem_of_nil in Hr.
  - unfold getitem. destruct (r !! "long_name") as [l|] eqn:Hl;
      cbv [mbind outcome_bind mret outcome_ret].
    + destruct (get_release_names rest) as [names|e'] eqn:Hrest.
      * split; [done|]. intros (He & r' & Hr' & Hlack).
        apply elem_of_cons in Hr' as [->|Hr']; [congruence|].
        assert (Habs : Return names = Raise e); [|done].
        apply IH. split; [done|]. by exists r'.
      * destruct (proj1 (IH e') eq_refl) as (He' & r' & Hr' & Hlack).
        split.
        -- intros [= <-]. split; [done|].
           exists r'. split; [by apply elem_of_cons; right | done].
        -- intros (-> & _). by rewrite He'.
    + split; [intros [= <-]; split; [done|] | by intros [-> _]].
      exists r. split; [by apply elem_of_cons; left | done].
Qed.

End Releases.

(** X26. When every release has a [name] and a [long_name],
    [get_release_tuples] returns one flat list, not pairs: it is twice as
    long as the list of releases, with the name of release [i] at index
    [2 * i] and its long name at index [2 * i + 1]. *)
Theorem get_release_tuples_flat :
  forall releases : list (gmap string string),
    Forall (fun r => is_Some (r !! "name") /\ is_Some (r !! "long_name")) releases ->
    exists out : list string,
      get_release_tuples releases = Return out /\
      length out = (2 * length releases)%nat /\
      (forall (i : nat) (release : gmap string string),
         releases !! i = Some release ->
         out !! (2 * i)%nat = release !! "name" /\
         out !! (2 * i + 1)%nat = release !! "long_name").
Proof.
  intros releases Hall. unfold get_release_tuples.
  destruct (release_tuples_loop_total [] releases Hall) as [out Hout].
  destruct (release_tuples_loop_return [] releases out Hout)
    as (tail & -> & Hlen & _ & Hitems).
  exists tail. by rewrite Hout.
Qed.

Lemma get_release_tuples_flat_witness :
  exists out : list string,
    get_release_tuples
      [ {[ "name" := "F7"; "long_name" := "Fedora 7"; "dist_tag" := "dist-fc7" ]};
        {[ "name" := "F8"; "long_name" := "Fedora 8" ]} ] = Return out /\
    length out = (2 * 2)%nat /\
    (forall (i : nat) (release : gmap string string),
       [ ({[ "name" := "F7"; "long_name" := "Fedora 7"; "dist_tag" := "dist-fc7" ]}
            : gmap string string);
         {[ "name" := "F8"; "long_name" := "Fedora 8" ]} ] !! i = Some release ->
       out !! (2 * i)%nat = release !! "name" /\
       out !! (2 * i + 1)%nat = release !! "long_name").
Proof.
  apply (get_release_tuples_flat
    [ {[ "name" := "F7"; "long_name" := "Fedora 7"; "dist_tag" := "dist-fc7" ]};
      {[ "name" := "F8"; "long_name" := "Fedora 8" ]} ]).
  repeat constructor; by eexists.
Defined.

(** X27. The two listings agree: when [get_release_tuples] returns, so does
    [get_release_names], and it returns the items that
    [get_release_tuples] has at the odd indices. *)
Theorem get_release_names_of_tuples :
  forall (releases : list (gmap string string)) (out : list string),
    get_release_tuples releases = Return out ->
    get_release_names releases = Return (odd_items out) /\
    length out = (2 * length releases)%nat.
Proof.
  intros releases out Hout. unfold get_release_tuples in Hout.
  destruct (release_tuples_loop_return [] releases out Hout)
    as (tail & -> & Hlen & Hnames & _).
  by split.
Qed.

Lemma get_release_names_of_tuples_witness :
  get_release_names
    [ {[ "name" := "F7"; "long_name" := "Fedora 7" ]};
      {[ "name" := "F8"; "long_name" := "Fedora 8" ]} ] =
    Return (odd_items ["F7"; "Fedora 7"; "F8"; "Fedora 8"]) /\
  length ["F7"; "Fedora 7"; "F8"; "Fedora 8"] = (2 * 2)%nat.
Proof.
  apply (get_release_names_of_tuples
    [ {[ "name" := "F7"; "long_name" := "Fedora 7" ]};
      {[ "name" := "F8"; "long_name" := "Fedora 8" ]} ]
    ["F7"; "Fedora 7"; "F8"; "Fedora 8"]).
  vm_compute. reflexivity.
Defined.

(** X28. The only exception of the two listings is [KeyError].
    [get_release_names] raises it exactly when some release has no
    [long_name]; [get_release_tuples] raises it exactly when some release
    has no [name] or no [long_name], so a release without a [name] breaks
    the second listing and not the first. *)
Theorem release_listings_key_error :
  forall (releases : list (gmap string string)) (e : exn),
    (get_release_names releases = Raise e <->
       e = OtherError "KeyError" /\
       exists r, r ∈ releases /\ r !! "long_name" = None) /\
    (get_release_tuples releases = Raise e <->
       e = OtherError "KeyError" /\
       exists r, r ∈ releases /\ (r !! "name" = None \/ r !! "long_name" = None)).
Proof.
  intros releases e. split.
  - apply get_release_names_raise.
  - unfold get_release_tuples. apply release_tuples_loop_raise.
Qed.

Example release_without_name :
  let releases : list (gmap string string) :=
    [ {[ "name" := "F7"; "long_name" := "Fedora 7" ]}; {[ "long_name" := "Fedora 8" ]} ] in
  get_release_names releases = Return ["Fedora 7"; "Fedora 8"] /\
  get_release_tuples releases = Raise (OtherError "KeyError").
Proof. vm_compute. done. Qed.

(** ** Encodings *)

(** X29. [fixEncoding] returns [None] and the two empty strings as they
    are, the empty unicode string included; every other value comes back
    as a byte string. It raises only on a non-empty byte string, and then
    the exception is that of the UTF-8 decoder when it is not a
    [UnicodeDecodeError], and otherwise that of the fallback decoder. *)
Theorem fixEncoding_outcomes :
  forall (c : codecs) (value : pytext) (fallback : string),
    (is_true value = false -> fixEncoding c value fallback = Return value) /\
    (is_true value = true ->
       forall r, fixEncoding c value fallback = Return r -> exists s, r = PyStr s) /\
    (forall e,
       fixEncoding c value fallback = Raise e <->
       exists s,
         value = PyStr s /\ s <> "" /\
         ((decode c "utf8" s = Raise e /\ e <> UnicodeDecodeError) \/
          (decode c "utf8" s = Raise UnicodeDecodeError /\ decode c fallback s = Raise e))).
Proof.
  intros c value fallback. unfold fixEncoding. split; [by intros ->|].
  destruct value as [|s|u]; simpl.
  - split; [done|]. intros e. split; [done | by intros (s & ? & _)].
  - destruct (String.eqb_spec s "") as [->|Hs]; simpl.
    + split; [done|]. intros e. split; [done|]. by intros (s & [= <-] & ? & _).
    + unfold recode. destruct (decode c "utf8" s) as [u|e1] eqn:Hutf8;
        cbv [mbind outcome_bind mret outcome_ret].
      * split; [intros _ r [= <-]; by eexists|].
        intros e. split; [done|].
        intros (s' & [= <-] & _ & [[H _]|[H _]]); congruence.
      * unfold is_decode_error. destruct (decide (e1 = UnicodeDecodeError)) as [->|Hne].
        -- rewrite bool_decide_eq_true_2 by done.
           destruct (decode c fallback s) as [u|e2] eqn:Hfb.
           ++ split; [intros _ r [= <-]; by eexists|].
              intros e. split; [done|].
              intros (s' & [= <-] & _ & [[H Hne]|[_ H]]); congruence.
           ++ split; [by intros _ r|].
              intros e. split.
              ** intros [= <-]. exists s. split; [done|]. split; [done|]. by right.
              ** intros (s' & [= <-] & _ & [[H Hne]|[_ H]]); congruence.
        -- rewrite bool_decide_eq_false_2 by done.
           split; [by intros _ r|].
           intros e. split.
           ++ intros [= <-]. exists s. split; [done|]. split; [done|]. by left.
           ++ intros (s' & [= <-] & _ & [[H _]|[H _]]); congruence.
  - destruct (bool_decide (u = [])); simpl.
    + split; [done|]. intros e. split; [done | by intros (s & ? & _)].
    + split; [intros _ r [= <-]; by eexists|].
      intros e. split; [done | by intros (s & ? & _)].
Qed.

(** ** The lock when the callable meddles with it *)

(** X30. When the callable itself leaves the lock released, the [release]
    of the wrapper fails, and its error takes the place of whatever the
    callable returned or raised. *)
Theorem synchronized_lock_released_inside :
  forall (St A R : Type) (f : A -> M (lock * St) R) (args : A)
         (l l1 : lock) (s s1 : St) (r : outcome R),
    f args (Lock true (lock_ops l ++ [Acquire]), s) = (r, (l1, s1)) ->
    locked l1 = false ->
    synchronized f args (l, s) = (Raise (OtherError "thread.error"), (l1, s1)).
Proof.
  intros St A R f args l l1 s s1 r Hf Hfree.
  rewrite synchronized_unfold, Hf. by rewrite Hfree.
Qed.

Lemma synchronized_lock_released_inside_witness :
  let f : unit -> M (lock * nat) nat :=
    fun _ '(l, n) => (Return n, (Lock false (lock_ops l ++ [Release]), n)) in
  synchronized f tt (Lock false [], 7%nat) =
    (Raise (OtherError "thread.error"), (Lock false [Acquire; Release], 7%nat)).
Proof.
  intros f.
  apply (synchronized_lock_released_inside nat unit nat f tt (Lock false [])
           (Lock false [Acquire; Release]) 7%nat 7%nat (Return 7%nat)); reflexivity.
Defined.
